(** * Mirroring a local directory into an Azure file share

    A shallow embedding of [src/constructs/file-share.ts]: the tree walker
    [getAllFiles], the directory set extractor [getDirectories], the
    classifier [categorizeFiles] and the planner [createFileShare], together
    with the parts of the Node.js runtime they call ([path] in its POSIX
    flavour and the two synchronous [fs] calls) and the rule of the
    constructs library every [new] of the planner goes through: a scope
    takes one child per name. *)

From Stdlib Require Import List String Ascii Bool Arith ZArith Lia Sorted Permutation.
From Stdlib Require OrderedTypeEx.
Import ListNotations.

Local Open Scope string_scope.
Local Open Scope list_scope.

Infix "+++" := String.append (right associativity, at level 60).

(** ** JavaScript strings

    A string is a [string] of the Standard Library; where the runtime scans
    a string from its end the model goes through the list of its
    characters. *)

Definition chars (s : string) : list ascii := list_ascii_of_string s.
Definition str (l : list ascii) : string := string_of_list_ascii l.

Definition is_sep (c : ascii) : bool := Ascii.eqb c "/".

(** [s.split('/')] *)
Fixpoint split (s : string) : list string :=
  match s with
  | EmptyString => [EmptyString]
  | String c s' =>
      if is_sep c then EmptyString :: split s'
      else match split s' with
           | seg :: segs => String c seg :: segs
           | [] => [String c EmptyString]
           end
  end.

(** [segs.join('/')] *)
Definition join_sep (segs : list string) : string := String.concat "/" segs.

(** [s.replace(/\//g, '_')] *)
Fixpoint replace_sep (s : string) : string :=
  match s with
  | EmptyString => EmptyString
  | String c s' => String (if is_sep c then "_"%char else c) (replace_sep s')
  end.

Fixpoint dropWhile {A} (p : A -> bool) (l : list A) : list A :=
  match l with
  | [] => []
  | x :: l' => if p x then dropWhile p l' else l
  end.

Fixpoint takeWhile {A} (p : A -> bool) (l : list A) : list A :=
  match l with
  | [] => []
  | x :: l' => if p x then x :: takeWhile p l' else []
  end.

(** A segment holds no separator. *)
Definition sep_free (s : string) : bool := forallb (fun c => negb (is_sep c)) (chars s).

(** A name a directory entry can have: not empty, not ["."], not [".."], no
    separator in it. *)
Definition valid_name (s : string) : bool :=
  negb (s =? "")%string && negb (s =? ".")%string && negb (s =? "..")%string
  && sep_free s.

(** A segment a relative path is made of: not empty, no separator. *)
Definition clean (s : string) : bool := negb (s =? "")%string && sep_free s.

(** ** The POSIX [path] module of Node.js *)

Module Path.

Definition isAbsolute (p : string) : bool :=
  match p with
  | String c _ => is_sep c
  | EmptyString => false
  end.

Definition trailingSeparator (p : string) : bool :=
  match rev (chars p) with
  | c :: _ => is_sep c
  | [] => false
  end.

(** One segment of [normalizeString]; [res] holds the segments kept so far,
    the last one first.  Empty segments and ["."] are skipped; [".."]
    removes the last kept segment unless there is none or it is [".."]
    itself, in which case it is kept only when [allowAboveRoot]. *)
Definition normalize_step (allowAboveRoot : bool) (res : list string) (seg : string)
  : list string :=
  if (seg =? "")%string || (seg =? ".")%string then res
  else if (seg =? "..")%string then
    match res with
    | [] => if allowAboveRoot then [".."] else []
    | last :: res' =>
        if (last =? "..")%string
        then (if allowAboveRoot then ".." :: res else res)
        else res'
    end
  else seg :: res.

Definition normalize_segs (allowAboveRoot : bool) (segs : list string) : list string :=
  rev (fold_left (normalize_step allowAboveRoot) segs []).

Definition normalizeString (path : string) (allowAboveRoot : bool) : string :=
  join_sep (normalize_segs allowAboveRoot (split path)).

(** [path.normalize] *)
Definition normalize (path : string) : string :=
  if (path =? "")%string then "."
  else
    let absolute := isAbsolute path in
    let trailing := trailingSeparator path in
    let p := normalizeString path (negb absolute) in
    if (p =? "")%string then
      if absolute then "/" else if trailing then "./" else "."
    else
      let p := if trailing then p +++ "/" else p in
      if absolute then "/" +++ p else p.

(** [path.join(...args)] *)
Definition join (args : list string) : string :=
  match filter (fun a => negb (a =? "")%string) args with
  | [] => "."
  | a :: rest => normalize (fold_left (fun joined arg => joined +++ "/" +++ arg) rest a)
  end.

(** The segments of [path.resolve(p)], for a process whose working directory
    is [cwd] (an absolute path, as [process.cwd()] always is). *)
Definition resolve_segs (cwd p : string) : list string :=
  normalize_segs false
    (split (if isAbsolute p then p
            else if (p =? "")%string then cwd
            else cwd +++ "/" +++ p)).

(** [path.resolve(p)] *)
Definition resolve (cwd p : string) : string :=
  "/" +++ join_sep (resolve_segs cwd p).

(** The two resolved paths without their longest common run of leading
    segments. *)
Fixpoint strip_common (a b : list string) : list string * list string :=
  match a, b with
  | x :: a', y :: b' => if (x =? y)%string then strip_common a' b' else (a, b)
  | _, _ => (a, b)
  end.

(** [path.relative(from, to)]: one [".."] for every segment of [from] left
    after the common part, then what is left of [to]. *)
Definition relative (cwd from to : string) : string :=
  if (from =? to)%string then ""
  else
    let '(up, down) := strip_common (resolve_segs cwd from) (resolve_segs cwd to) in
    join_sep (repeat ".." (List.length up) ++ down).

(** [path.dirname] on the characters of the path.  The scan runs from the
    last character down to index 1: trailing separators are passed over,
    then the last segment, and the first separator met after it is where
    the result ends. *)
Definition dirname_chars (p : list ascii) : list ascii :=
  match p with
  | [] => ["."%char]
  | c :: body =>
      let hasRoot := is_sep c in
      match dropWhile (fun x => negb (is_sep x)) (dropWhile is_sep (rev body)) with
      | [] => if hasRoot then ["/"%char] else ["."%char]
      | _ :: keep =>
          if hasRoot && Nat.eqb (List.length keep) 0 then ["/"%char; "/"%char]
          else c :: rev keep
      end
  end.

Definition dirname (p : string) : string := str (dirname_chars (chars p)).

(** [path.basename] with no suffix: the last run of characters that are not
    separators, trailing separators apart. *)
Definition basename_chars (p : list ascii) : list ascii :=
  rev (takeWhile (fun x => negb (is_sep x)) (dropWhile is_sep (rev p))).

Definition basename (p : string) : string := str (basename_chars (chars p)).

End Path.

(** ** The file system

    A tree of directories and regular files; the entries of a directory
    come in the order [readdir] reports them.  Symbolic links are not
    modelled. *)

#[warnings="-register-all"]
Inductive node : Type :=
| File : node
| Dir : list (string * node) -> node.

(** What the program throws: the errors of the two [fs] calls, and the
    [Error] of the constructs library when a scope is given a second child
    under a name it already holds ("There is already a Construct with name
    ...", here with that name).  [ENOENT] is what the specification calls
    NotFoundError and [ENOTDIR] what it calls NotADirectoryError.
    [OutOfFuel] is not an error of the program: it is a walk cut short by
    the model's recursion bound. *)
Inductive error : Type :=
| ENOENT
| ENOTDIR
| OutOfFuel
| DuplicateConstruct (name : string).

Inductive result (A : Type) : Type :=
| Ok : A -> result A
| Throw : error -> result A.
Arguments Ok {A} _.
Arguments Throw {A} _.

Definition bindR {A B} (r : result A) (k : A -> result B) : result B :=
  match r with
  | Ok a => k a
  | Throw e => Throw e
  end.

Notation "x <-? r ; k" := (bindR r (fun x => k))
  (at level 61, r at next level, right associativity).

Definition isDirectory (n : node) : bool :=
  match n with
  | Dir _ => true
  | File => false
  end.

Fixpoint find_entry (name : string) (entries : list (string * node)) : option node :=
  match entries with
  | [] => None
  | (n, child) :: rest => if (n =? name)%string then Some child else find_entry name rest
  end.

(** Path resolution as the kernel does it, segment after segment.  [trail]
    holds the directories entered so far, the innermost first; below the
    last of them is the root of the file system, which is its own parent. *)
Fixpoint walk (root : node) (trail : list node) (segs : list string) : result node :=
  match segs with
  | [] => Ok (hd root trail)
  | seg :: rest =>
      match hd root trail with
      | File => Throw ENOTDIR
      | Dir entries =>
          if (seg =? "")%string || (seg =? ".")%string then walk root trail rest
          else if (seg =? "..")%string then walk root (tl trail) rest
          else match find_entry seg entries with
               | None => Throw ENOENT
               | Some child => walk root (child :: trail) rest
               end
      end
  end.

Fixpoint height (n : node) : nat :=
  match n with
  | File => 0
  | Dir entries => S (list_max (map (fun e => height (snd e)) entries))
  end.

(** The node found by descending from [n] along the names [segs]. *)
Fixpoint node_at (n : node) (segs : list string) : option node :=
  match segs with
  | [] => Some n
  | seg :: rest =>
      match n with
      | File => None
      | Dir entries =>
          match find_entry seg entries with
          | Some child => node_at child rest
          | None => None
          end
      end
  end.

(** The regular files below [n], each as the list of names that leads to it
    from [n], in the order the directories list their entries. *)
Fixpoint files_of (n : node) : list (list string) :=
  match n with
  | File => []
  | Dir entries =>
      flat_map (fun e => match snd e with
                         | File => [[fst e]]
                         | Dir _ => map (cons (fst e)) (files_of (snd e))
                         end) entries
  end.

Fixpoint nodupb (l : list string) : bool :=
  match l with
  | [] => true
  | x :: l' => negb (existsb (String.eqb x) l') && nodupb l'
  end.

(** A tree as the kernel keeps it: every entry has a valid name and no
    directory lists a name twice.  A file system is such a tree whose root
    is a directory. *)
Fixpoint well_formed (n : node) : bool :=
  match n with
  | File => true
  | Dir entries =>
      forallb (fun e => valid_name (fst e)) entries
      && nodupb (map fst entries)
      && forallb (fun e => well_formed (snd e)) entries
  end.

Definition fs_ok (fs : node) : bool := isDirectory fs && well_formed fs.

(** The distinct directories, relative to [n] and other than [n] itself,
    that are the parent of some regular file below [n]. *)
Definition parent_dirs (n : node) : list (list string) :=
  nodup (list_eq_dec string_dec)
        (filter (fun d => match d with [] => false | _ => true end)
                (map (@removelast string) (files_of n))).

Section Env.

(** The environment of the process: the file system and the working
    directory (an absolute path). *)
Variable fs : node.
Variable cwd : string.

Definition lookup (p : string) : result node :=
  if (p =? "")%string then Throw ENOENT
  else walk fs [] (split (if Path.isAbsolute p then p else cwd +++ "/" +++ p)).

(** [fs.readdirSync(dir)] *)
Definition readdirSync (dir : string) : result (list string) :=
  n <-? lookup dir;
  match n with
  | Dir entries => Ok (map fst entries)
  | File => Throw ENOTDIR
  end.

(** [fs.statSync(p)] *)
Definition statSync (p : string) : result node := lookup p.

(** *** [getAllFiles] *)

Fixpoint getAllFiles_rec (fuel : nat) (dir : string) : result (list string) :=
  match fuel with
  | O => Throw OutOfFuel
  | S fuel' =>
      items <-? readdirSync dir;
      fold_left
        (fun (acc : result (list string)) (item : string) =>
           results <-? acc;
           let fullPath := Path.join [dir; item] in
           stat <-? statSync fullPath;
           if isDirectory stat then
             sub <-? getAllFiles_rec fuel' fullPath;
             Ok (results ++ sub)
           else Ok (results ++ [fullPath]))
        items (Ok [])
  end.

(** The recursion descends one directory at a time, so one more than the
    height of the file system is enough. *)
Definition getAllFiles (dir : string) : result (list string) :=
  getAllFiles_rec (S (height fs)) dir.

(** *** [getDirectories] *)

(** [Set.prototype.add]: a [Set] keeps its elements in insertion order. *)
Definition set_add (x : string) (s : list string) : list string :=
  if existsb (String.eqb x) s then s else s ++ [x].

Fixpoint insert_sorted (x : string) (l : list string) : list string :=
  match l with
  | [] => [x]
  | y :: l' => if (x <=? y)%string then x :: l else y :: insert_sorted x l'
  end.

(** [Array.prototype.sort()] with the default comparison, by code units. *)
Definition sort (l : list string) : list string :=
  fold_right insert_sorted [] l.

Definition getDirectories (files : list string) (mountDir : string) : list string :=
  let directories :=
    fold_left
      (fun (directories : list string) (file : string) =>
         let dir := Path.dirname (Path.relative cwd mountDir file) in
         if negb (dir =? "")%string && negb (dir =? mountDir)%string
            && negb (dir =? ".")%string
         then set_add dir directories
         else directories)
      files [] in
  sort directories.

(** *** [categorizeFiles] *)

Record categorized : Type := {
  rootFiles : list string;
  subdirFiles : list string
}.

Definition categorizeFiles (files : list string) (mountDir : string) : categorized :=
  fold_left
    (fun (acc : categorized) (file : string) =>
       if (Path.dirname file =? mountDir)%string
       then {| rootFiles := rootFiles acc ++ [file]; subdirFiles := subdirFiles acc |}
       else {| rootFiles := rootFiles acc; subdirFiles := subdirFiles acc ++ [file] |})
    files {| rootFiles := []; subdirFiles := [] |}.

End Env.

(** ** The constructs a [FileShareConstruct] holds

    [new C(this, id, config)] adds a child to the scope [this], unless the
    scope already has a child of that name: then the constructor throws and
    the scope stays as it was.  The model keeps the children in creation
    order, each with the construct id it was created with and its
    configuration.  The reference [share.id] is rendered by the construct
    id of the share. *)

Record FileShareModuleProps : Type := {
  storageAccountName : string;
  localMountDir : string;
  shareName : string;
  quota : option Z
}.

Record StorageShare : Type := {
  share_id : string;
  share_name : string;
  share_storageAccountName : string;
  share_quota : Z
}.

Record StorageShareDirectory : Type := {
  dir_id : string;
  dir_name : string;
  dir_storageShareId : string
}.

Record StorageShareFile : Type := {
  file_id : string;
  file_name : string;
  file_storageShareId : string;
  file_source : string;
  file_path : option string;
  file_dependsOn : list StorageShareDirectory
}.

Inductive construct : Type :=
| CShare : StorageShare -> construct
| CDirectory : StorageShareDirectory -> construct
| CFile : StorageShareFile -> construct.

Record scope : Type := {
  children : list construct;
  shares : list (string * StorageShare)
}.

(** Statements of a method of the construct: they may throw, and what they
    added to the scope before throwing stays there. *)
Definition M (A : Type) : Type := scope -> result A * scope.

Definition ret {A} (a : A) : M A := fun s => (Ok a, s).

Definition bind {A B} (m : M A) (k : A -> M B) : M B :=
  fun s =>
    match m s with
    | (Ok a, s') => k a s'
    | (Throw e, s') => (Throw e, s')
    end.

Definition lift {A} (r : result A) : M A := fun s => (r, s).

Notation "x <- m ;; k" := (bind m (fun x => k))
  (at level 61, m at next level, right associativity).
Notation "m ;; k" := (bind m (fun _ => k))
  (at level 61, right associativity).

(** The name a child is kept under: the library escapes the path separator
    of an id as two dashes ([sanitizeId]). *)
Fixpoint sanitizeId (id : string) : string :=
  match id with
  | EmptyString => EmptyString
  | String c id' =>
      if is_sep c then String "-" (String "-" (sanitizeId id'))
      else String c (sanitizeId id')
  end.

Definition construct_id (c : construct) : string :=
  match c with
  | CShare share => share_id share
  | CDirectory d => dir_id d
  | CFile f => file_id f
  end.

Definition childName (c : construct) : string := sanitizeId (construct_id c).

(** Whether the children [cs] hold one of the name [name]. *)
Definition hasChild (name : string) (cs : list construct) : bool :=
  existsb (fun c => (childName c =? name)%string) cs.

(** [Node.addChild]: the ids this program passes all start with a literal
    prefix, so the library's tests for an empty id never apply. *)
Definition addChild (c : construct) : M unit :=
  fun s =>
    if hasChild (childName c) (children s)
    then (Throw (DuplicateConstruct (childName c)), s)
    else (Ok tt, {| children := children s ++ [c]; shares := shares s |}).

Fixpoint assign (k : string) (v : StorageShare) (m : list (string * StorageShare))
  : list (string * StorageShare) :=
  match m with
  | [] => [(k, v)]
  | (k', v') :: m' => if (k' =? k)%string then (k, v) :: m' else (k', v') :: assign k v m'
  end.

Definition setShare (k : string) (v : StorageShare) : M unit :=
  fun s => (Ok tt, {| children := children s; shares := assign k v (shares s) |}).

Fixpoint mapM {A B} (f : A -> M B) (l : list A) : M (list B) :=
  match l with
  | [] => ret []
  | x :: l' => y <- f x ;; ys <- mapM f l' ;; ret (y :: ys)
  end.

Fixpoint forEach {A} (l : list A) (f : A -> M unit) : M unit :=
  match l with
  | [] => ret tt
  | x :: l' => f x ;; forEach l' f
  end.

Definition newStorageShare (id name account : string) (q : Z) : M StorageShare :=
  let share := {| share_id := id; share_name := name;
                  share_storageAccountName := account; share_quota := q |} in
  addChild (CShare share) ;; ret share.

Definition newStorageShareDirectory (id name shareId : string) : M StorageShareDirectory :=
  let d := {| dir_id := id; dir_name := name; dir_storageShareId := shareId |} in
  addChild (CDirectory d) ;; ret d.

Definition newStorageShareFile (id name shareId source : string) (path : option string)
    (dependsOn : list StorageShareDirectory) : M unit :=
  addChild (CFile {| file_id := id; file_name := name; file_storageShareId := shareId;
                     file_source := source; file_path := path;
                     file_dependsOn := dependsOn |}).

(** [props.quota || 50] *)
Definition quota_or_default (q : option Z) : Z :=
  match q with
  | Some v => if (v =? 0)%Z then 50%Z else v
  | None => 50%Z
  end.

(** ** [createFileShare] *)

Section CreateFileShare.
Variable fs : node.
Variable cwd : string.

Definition createFileShare (props : FileShareModuleProps) : M StorageShare :=
  share <- newStorageShare ("share_" +++ shareName props) (shareName props)
             (storageAccountName props) (quota_or_default (quota props)) ;;
  setShare (shareName props) share ;;
  files <- lift (getAllFiles fs cwd (localMountDir props)) ;;
  let directories := getDirectories cwd files (localMountDir props) in
  shareDirectories <-
    mapM (fun dir =>
            newStorageShareDirectory
              ("dir_" +++ shareName props +++ "_" +++ replace_sep dir)
              dir (share_id share))
         directories ;;
  let c := categorizeFiles files (localMountDir props) in
  forEach (rootFiles c)
    (fun file =>
       newStorageShareFile
         ("file_" +++ shareName props +++ "_root_" +++ Path.basename file)
         (Path.basename file) (share_id share) file None shareDirectories) ;;
  forEach (subdirFiles c)
    (fun file =>
       let relativePath := Path.relative cwd (localMountDir props) file in
       newStorageShareFile
         ("file_" +++ shareName props +++ "_" +++ replace_sep relativePath)
         (Path.basename file) (share_id share) file
         (Some (if (Path.dirname relativePath =? "./")%string then "./"
                else Path.dirname relativePath))
         shareDirectories) ;;
  ret share.

End CreateFileShare.

(** ** The two simplified variants the refinement statements compare with *)

Section Variants.
Variable fs : node.
Variable cwd : string.

(** [createFileShare] with the remote path of a nested file written as
    [path.dirname(relativePath)], without the conditional on ["./"]. *)
Definition createFileShare_direct (props : FileShareModuleProps) : M StorageShare :=
  share <- newStorageShare ("share_" +++ shareName props) (shareName props)
             (storageAccountName props) (quota_or_default (quota props)) ;;
  setShare (shareName props) share ;;
  files <- lift (getAllFiles fs cwd (localMountDir props)) ;;
  let directories := getDirectories cwd files (localMountDir props) in
  shareDirectories <-
    mapM (fun dir =>
            newStorageShareDirectory
              ("dir_" +++ shareName props +++ "_" +++ replace_sep dir)
              dir (share_id share))
         directories ;;
  let c := categorizeFiles files (localMountDir props) in
  forEach (rootFiles c)
    (fun file =>
       newStorageShareFile
         ("file_" +++ shareName props +++ "_root_" +++ Path.basename file)
         (Path.basename file) (share_id share) file None shareDirectories) ;;
  forEach (subdirFiles c)
    (fun file =>
       let relativePath := Path.relative cwd (localMountDir props) file in
       newStorageShareFile
         ("file_" +++ shareName props +++ "_" +++ replace_sep relativePath)
         (Path.basename file) (share_id share) file
         (Some (Path.dirname relativePath))
         shareDirectories) ;;
  ret share.

(** [getDirectories] with the comparison against the mount directory left
    out of the test. *)
Definition getDirectories_two_tests (files : list string) (mountDir : string)
  : list string :=
  let directories :=
    fold_left
      (fun (directories : list string) (file : string) =>
         let dir := Path.dirname (Path.relative cwd mountDir file) in
         if negb (dir =? "")%string && negb (dir =? ".")%string
         then set_add dir directories
         else directories)
      files [] in
  sort directories.

End Variants.

(** *** The plan a call emits

    What [createFileShare] adds to the scope it runs in, read as the
    specification's MirrorPlan: the directories and the files, each file
    with its dependency list. *)

Definition directoriesOf (cs : list construct) : list StorageShareDirectory :=
  flat_map (fun c => match c with CDirectory d => [d] | _ => [] end) cs.

Definition filesOf (cs : list construct) : list StorageShareFile :=
  flat_map (fun c => match c with CFile f => [f] | _ => [] end) cs.

Definition emitted (fs : node) (cwd : string) (props : FileShareModuleProps) (s : scope)
  : list construct :=
  skipn (List.length (children s)) (children (snd (createFileShare fs cwd props s))).

Record MirrorPlan : Type := {
  plan_directories : list StorageShareDirectory;
  plan_files : list StorageShareFile
}.

Definition planOf (fs : node) (cwd : string) (props : FileShareModuleProps) (s : scope)
  : MirrorPlan :=
  {| plan_directories := directoriesOf (emitted fs cwd props s);
     plan_files := filesOf (emitted fs cwd props s) |}.

(** ** Notions the statements are written with *)

(** The absolute path whose segments are [segs]. *)
Definition abs_path (segs : list string) : string := String "/" (join_sep segs).



(** The order [sort] puts strings in: by code units, as [String.compare]. *)
Definition str_lt (a b : string) : Prop := (a <? b)%string = true.
Definition str_le (a b : string) : Prop := (a <=? b)%string = true.

(** A [Set] filled from a list. *)
Definition dedup (l : list string) : list string :=
  fold_left (fun acc d => set_add d acc) l [].

(** The directory [getDirectories] computes for a file, and its test. *)
Definition dir_of (cwd mountDir file : string) : string :=
  Path.dirname (Path.relative cwd mountDir file).

Definition kept (mountDir dir : string) : bool :=
  negb (dir =? "")%string && negb (dir =? mountDir)%string && negb (dir =? ".")%string.

(** The constructs [createFileShare] creates, one by one. *)
Definition theShare (props : FileShareModuleProps) : StorageShare :=
  {| share_id := "share_" +++ shareName props;
     share_name := shareName props;
     share_storageAccountName := storageAccountName props;
     share_quota := quota_or_default (quota props) |}.

Definition theDirectory (props : FileShareModuleProps) (dir : string)
  : StorageShareDirectory :=
  {| dir_id := "dir_" +++ shareName props +++ "_" +++ replace_sep dir;
     dir_name := dir;
     dir_storageShareId := share_id (theShare props) |}.

Definition rootFile (props : FileShareModuleProps) (deps : list StorageShareDirectory)
    (file : string) : StorageShareFile :=
  {| file_id := "file_" +++ shareName props +++ "_root_" +++ Path.basename file;
     file_name := Path.basename file;
     file_storageShareId := share_id (theShare props);
     file_source := file;
     file_path := None;
     file_dependsOn := deps |}.

Definition nestedFile (cwd : string) (props : FileShareModuleProps)
    (deps : list StorageShareDirectory) (file : string) : StorageShareFile :=
  {| file_id := "file_" +++ shareName props +++ "_"
                +++ replace_sep (Path.relative cwd (localMountDir props) file);
     file_name := Path.basename file;
     file_storageShareId := share_id (theShare props);
     file_source := file;
     file_path :=
       Some (if (Path.dirname (Path.relative cwd (localMountDir props) file) =? "./")%string
             then "./"
             else Path.dirname (Path.relative cwd (localMountDir props) file));
     file_dependsOn := deps |}.

(** The constructs one call goes on to create after the share, in creation
    order, for the files the walk returned; with the share in front, all
    that the call sets out to create. *)
Definition planned (cwd : string) (props : FileShareModuleProps) (files : list string)
  : list construct :=
  let dirs := map (theDirectory props) (getDirectories cwd files (localMountDir props)) in
  let c := categorizeFiles files (localMountDir props) in
  map CDirectory dirs
  ++ map CFile (map (rootFile props dirs) (rootFiles c))
  ++ map CFile (map (nestedFile cwd props dirs) (subdirFiles c)).

Definition added (cwd : string) (props : FileShareModuleProps) (files : list string)
  : list construct :=
  CShare (theShare props) :: planned cwd props files.

(** Of the constructs [cs], created one after the other in a scope whose
    children are [have]: those that get created, and the name the creation
    stopped at, if it did. *)
Fixpoint accepted (have cs : list construct) : list construct * option string :=
  match cs with
  | [] => ([], None)
  | c :: cs' =>
      if hasChild (childName c) have then ([], Some (childName c))
      else let r := accepted (have ++ [c]) cs' in (c :: fst r, snd r)
  end.

Definition outcome {A} (a : A) (stopped : option string) : result A :=
  match stopped with
  | None => Ok a
  | Some name => Throw (DuplicateConstruct name)
  end.

(** No two of the constructs have the same name. *)
Definition distinct_names (cs : list construct) : bool := nodupb (map childName cs).

(** The run of a call, case by case: its outcome and the constructs it
    creates. *)
Inductive run_of (fs : node) (cwd : string) (props : FileShareModuleProps) (s : scope)
  : result StorageShare -> list construct -> Prop :=
| run_taken :
    hasChild (childName (CShare (theShare props))) (children s) = true ->
    run_of fs cwd props s
      (Throw (DuplicateConstruct (childName (CShare (theShare props))))) []
| run_walk_throws e :
    hasChild (childName (CShare (theShare props))) (children s) = false ->
    getAllFiles fs cwd (localMountDir props) = Throw e ->
    run_of fs cwd props s (Throw e) [CShare (theShare props)]
| run_walk_returns files a rest stopped :
    hasChild (childName (CShare (theShare props))) (children s) = false ->
    getAllFiles fs cwd (localMountDir props) = Ok files ->
    planned cwd props files = a ++ rest ->
    (stopped = None -> rest = []) ->
    (forall name, stopped = Some name ->
       exists c rest', rest = c :: rest' /\ name = childName c
                       /\ hasChild name (children s ++ CShare (theShare props) :: a) = true) ->
    run_of fs cwd props s (outcome (theShare props) stopped) (CShare (theShare props) :: a).

(** The directories entered on the way down and their names, the innermost
    first. *)
Fixpoint trail_ok (fs : node) (names : list string) (trail : list node) : Prop :=
  match names, trail with
  | [], [] => True
  | name :: names', child :: trail' =>
      trail_ok fs names' trail' /\ valid_name name = true
      /\ exists entries, hd fs trail' = Dir entries /\ find_entry name entries = Some child
  | _, _ => False
  end.

(** A small tree used to exercise the statements: [/srv/nginx] holds
    [nginx.conf], a directory [conf.d] with one file and one empty
    directory, and a second empty directory. *)
Definition nginx_fs : node :=
  Dir [("srv",
        Dir [("nginx",
              Dir [("nginx.conf", File);
                   ("conf.d", Dir [("default.conf", File); ("empty", Dir [])]);
                   ("empty2", Dir [])])])].

Definition nginx_props (root : string) : FileShareModuleProps :=
  {| storageAccountName := "acct"; localMountDir := root;
     shareName := "nginx"; quota := None |}.

Definition empty_scope : scope := {| children := []; shares := [] |}.

(** ** The constructor of [FileShareConstruct]

    The storage account and the blob container it creates first are kept in
    fields of their own; [mirror] is the part of the scope the three calls
    of [createFileShare] fill.  The ids of the two, [storage_account] and
    [container], are names no call of [createFileShare] gives a child:
    those start with [share_], [dir_] or [file_].  The reference
    [this.storageAccount.name] is rendered by the name it resolves to, and
    [dirname] stands for [__dirname]. *)

Record FileShareConstructProps : Type := {
  cp_storageAccountName : string;
  cp_containerName : string;
  cp_resourceGroupName : string;
  cp_location : string
}.

Record StorageAccount : Type := {
  sa_id : string;
  sa_name : string;
  sa_resourceGroupName : string;
  sa_location : string;
  sa_accountTier : string;
  sa_accountReplicationType : string
}.

Record StorageContainer : Type := {
  sc_id : string;
  sc_name : string;
  sc_storageAccountName : string;
  sc_containerAccessType : string
}.

Record FileShareConstruct : Type := {
  storageAccount : StorageAccount;
  container : StorageContainer;
  mirror : scope
}.

Definition moduleProps (account dirname sub name : string) : FileShareModuleProps :=
  {| storageAccountName := account;
     localMountDir := Path.join [dirname; sub];
     shareName := name;
     quota := None |}.

Definition newFileShareConstruct (fs : node) (cwd dirname : string)
    (props : FileShareConstructProps) : result unit * FileShareConstruct :=
  let account :=
    {| sa_id := "storage_account";
       sa_name := cp_storageAccountName props;
       sa_resourceGroupName := cp_resourceGroupName props;
       sa_location := cp_location props;
       sa_accountTier := "Standard";
       sa_accountReplicationType := "LRS" |} in
  let cont :=
    {| sc_id := "container";
       sc_name := cp_containerName props;
       sc_storageAccountName := sa_name account;
       sc_containerAccessType := "private" |} in
  let calls : M unit :=
    createFileShare fs cwd (moduleProps (sa_name account) dirname "mountfiles/nginx" "nginx") ;;
    createFileShare fs cwd (moduleProps (sa_name account) dirname "mountfiles/sandbox" "sandbox") ;;
    createFileShare fs cwd
      (moduleProps (sa_name account) dirname "mountfiles/ssrfproxy" "ssrfproxy") ;;
    ret tt in
  let run := calls {| children := []; shares := [] |} in
  (fst run, {| storageAccount := account; container := cont; mirror := snd run |}).

(** Reading [shares[k]]. *)
Fixpoint get (k : string) (m : list (string * StorageShare)) : option StorageShare :=
  match m with
  | [] => None
  | (k', v) :: m' => if (k' =? k)%string then Some v else get k m'
  end.

(** No underscore in the string. *)
Definition underscore_free (s : string) : bool :=
  forallb (fun c => negb (Ascii.eqb c "_")) (chars s).

(** A tree with the three mount directories below [/app/mountfiles]. *)
Definition app_fs : node :=
  Dir [("app",
        Dir [("mountfiles",
              Dir [("nginx", Dir [("nginx.conf", File);
                                  ("conf.d", Dir [("default.conf", File)])]);
                   ("sandbox", Dir [("python-requirements.txt", File)]);
                   ("ssrfproxy", Dir [("squid.conf", File)])])])].

Definition app_props : FileShareConstructProps :=
  {| cp_storageAccountName := "stgdify"; cp_containerName := "cdktf";
     cp_resourceGroupName := "rg"; cp_location := "Japan East" |}.

(** What tells the children of the three calls of the constructor apart:
    the two characters of a child's name after its first underscore,
    ["ng"], ["sa"] or ["ss"]. *)
Fixpoint after_underscore (name : string) : string :=
  match name with
  | EmptyString => EmptyString
  | String c rest => if Ascii.eqb c "_" then rest else after_underscore rest
  end.

Definition call_tag (name : string) : string := substring 0 2 (after_underscore name).

(** The same place with other contents of [mountfiles/nginx]. *)
Definition app_with (nginx : node) : node :=
  Dir [("app",
        Dir [("mountfiles",
              Dir [("nginx", nginx);
                   ("sandbox", Dir [("python-requirements.txt", File)]);
                   ("ssrfproxy", Dir [("squid.conf", File)])])])].

(** The directories [a/b] and [a_b], each with a file, and a file [z]:
    both directories get the id [dir_nginx_a_b]. *)
Definition twin_directories : node :=
  Dir [("a", Dir [("b", Dir [("x", File)])]);
       ("a_b", Dir [("y", File)]);
       ("z", File)].

(** The file [x] and the file [root/x]: both get the id
    [file_nginx_root_x]. *)
Definition twin_files : node :=
  Dir [("root", Dir [("x", File)]); ("x", File)].

(** Two directories with a file each. *)
Definition two_directories : node :=
  Dir [("conf.d", Dir [("default.conf", File)]);
       ("certs", Dir [("site.pem", File)]);
       ("nginx.conf", File)].

(** [mountfiles] is a regular file: no mount directory exists. *)
Definition app_without_mounts : node :=
  Dir [("app", Dir [("mountfiles", File)])].

Definition mount_props (name : string) : FileShareModuleProps :=
  moduleProps "stgdify" "/app" ("mountfiles/" +++ name) name.

(** * Strings and segments *)

Lemma chars_app (a b : string) : chars (a +++ b) = chars a ++ chars b.
Proof.
  induction a as [|c a IH]; simpl; [reflexivity|].
  unfold chars in *; simpl; now rewrite IH.
Qed.

Lemma str_chars (s : string) : str (chars s) = s.
Proof. apply string_of_list_ascii_of_string. Qed.

Lemma chars_str (l : list ascii) : chars (str l) = l.
Proof. apply list_ascii_of_string_of_list_ascii. Qed.

Lemma chars_inj (a b : string) : chars a = chars b -> a = b.
Proof. intros H; rewrite <- (str_chars a), <- (str_chars b); now rewrite H. Qed.

Lemma append_empty_r (s : string) : s +++ "" = s.
Proof. induction s; simpl; congruence. Qed.

Lemma append_assoc' (a b c : string) : (a +++ b) +++ c = a +++ b +++ c.
Proof. induction a; simpl; congruence. Qed.

Lemma valid_clean s : valid_name s = true -> clean s = true.
Proof.
  unfold valid_name, clean; intros H.
  repeat (apply andb_true_iff in H; destruct H as [H ?]).
  apply andb_true_iff; auto.
Qed.

Lemma Forall_valid_clean l :
  Forall (fun s => valid_name s = true) l -> Forall (fun s => clean s = true) l.
Proof. apply Forall_impl, valid_clean. Qed.

Lemma clean_sep_free s : clean s = true -> sep_free s = true.
Proof. unfold clean; intros H; apply andb_true_iff in H; tauto. Qed.

Lemma clean_nonempty s : clean s = true -> s <> "".
Proof.
  unfold clean; intros H; apply andb_true_iff in H; destruct H as [H _].
  intros ->; discriminate.
Qed.

Lemma sep_free_cons c s :
  sep_free (String c s) = negb (is_sep c) && sep_free s.
Proof. reflexivity. Qed.

Lemma split_nonempty s : split s <> [].
Proof.
  destruct s as [|c s]; simpl; [discriminate|].
  destruct (is_sep c); [discriminate|].
  destruct (split s); discriminate.
Qed.

Lemma split_sep_free s : sep_free s = true -> split s = [s].
Proof.
  induction s as [|c s IH]; [reflexivity|].
  rewrite sep_free_cons; intros H; apply andb_true_iff in H; destruct H as [Hc Hs].
  simpl. apply negb_true_iff in Hc; rewrite Hc, (IH Hs); reflexivity.
Qed.

Lemma split_app_sep a b : split (a +++ String "/" b) = split a ++ split b.
Proof.
  induction a as [|c a IH]; [reflexivity|].
  simpl. destruct (is_sep c); [now rewrite IH|].
  rewrite IH. destruct (split a) eqn:E; [now apply split_nonempty in E|reflexivity].
Qed.

Lemma split_all_sep_free s : Forall (fun x => sep_free x = true) (split s).
Proof.
  induction s as [|c s IH]; simpl; [repeat constructor|].
  destruct (is_sep c) eqn:Ec; [constructor; [reflexivity|assumption]|].
  destruct (split s) as [|seg segs]; [repeat constructor; rewrite sep_free_cons, Ec; reflexivity|].
  inversion IH; subst; constructor; [|assumption].
  rewrite sep_free_cons, Ec; assumption.
Qed.

Lemma join_sep_cons2 x y l : join_sep (x :: y :: l) = x +++ String "/" (join_sep (y :: l)).
Proof. reflexivity. Qed.

Lemma split_join_sep segs :
  segs <> [] -> Forall (fun x => sep_free x = true) segs -> split (join_sep segs) = segs.
Proof.
  induction segs as [|x segs IH]; [congruence|]; intros _ H.
  inversion H as [|? ? Hx Hs]; subst.
  destruct segs as [|y segs]; [now apply split_sep_free|].
  rewrite join_sep_cons2, split_app_sep, (split_sep_free _ Hx), IH; [reflexivity|discriminate|assumption].
Qed.

Lemma join_sep_nonempty segs :
  segs <> [] -> Forall (fun x => clean x = true) segs -> join_sep segs <> "".
Proof.
  destruct segs as [|x segs]; [congruence|]; intros _ H.
  inversion H as [|? ? Hx _]; subst. apply clean_nonempty in Hx.
  destruct segs; [assumption|].
  rewrite join_sep_cons2. destruct x; [congruence|discriminate].
Qed.

(** Rendering clean segments is injective. *)
Lemma join_sep_inj a b :
  Forall (fun x => clean x = true) a -> Forall (fun x => clean x = true) b ->
  join_sep a = join_sep b -> a = b.
Proof.
  intros Ha Hb E.
  destruct a as [|x a], b as [|y b]; [reflexivity| | |].
  - symmetry in E; apply join_sep_nonempty in E; [easy|discriminate|assumption].
  - apply join_sep_nonempty in E; [easy|discriminate|assumption].
  - rewrite <- (split_join_sep (x :: a)), <- (split_join_sep (y :: b)), E;
      try discriminate; try reflexivity;
      eapply Forall_impl; try eassumption; apply clean_sep_free.
Qed.

Lemma join_sep_snoc pre x :
  pre <> [] -> join_sep (pre ++ [x]) = join_sep pre +++ String "/" x.
Proof.
  induction pre as [|y pre IH]; [congruence|]; intros _.
  destruct pre as [|z pre]; [reflexivity|].
  change ((y :: z :: pre) ++ [x]) with (y :: z :: (pre ++ [x])).
  rewrite !join_sep_cons2, append_assoc'. simpl. f_equal. f_equal.
  apply (IH ltac:(discriminate)).
Qed.

(** * Facts about the [path] model *)

Module PathFacts.
Import Path.


Lemma normalize_step_valid allow res seg :
  valid_name seg = true -> normalize_step allow res seg = seg :: res.
Proof.
  unfold valid_name, normalize_step; intros H.
  repeat (apply andb_true_iff in H; destruct H as [H ?]).
  apply negb_true_iff in H. rewrite H; simpl.
  match goal with H1 : negb (seg =? ".")%string = true |- _ =>
    apply negb_true_iff in H1; rewrite H1 end.
  match goal with H1 : negb (seg =? "..")%string = true |- _ =>
    apply negb_true_iff in H1; rewrite H1 end.
  reflexivity.
Qed.

Lemma fold_normalize_valid allow segs acc :
  Forall (fun s => valid_name s = true) segs ->
  fold_left (normalize_step allow) segs acc = rev segs ++ acc.
Proof.
  revert acc; induction segs as [|x segs IH]; intros acc H; [reflexivity|].
  inversion H; subst. simpl. rewrite normalize_step_valid, IH by assumption.
  now rewrite <- app_assoc.
Qed.

Lemma normalize_segs_app_valid allow pre segs :
  Forall (fun s => valid_name s = true) segs ->
  normalize_segs allow (pre ++ segs) = normalize_segs allow pre ++ segs.
Proof.
  intros H. unfold normalize_segs.
  rewrite fold_left_app, fold_normalize_valid, rev_app_distr, rev_involutive by assumption.
  reflexivity.
Qed.

Lemma normalize_step_out allow res seg :
  sep_free seg = true ->
  Forall (fun s => clean s = true /\ (allow = false -> valid_name s = true)) res ->
  Forall (fun s => clean s = true /\ (allow = false -> valid_name s = true))
         (normalize_step allow res seg).
Proof.
  intros Hs Hres. unfold normalize_step.
  destruct (seg =? "")%string eqn:E1; [assumption|].
  destruct (seg =? ".")%string eqn:E2; [assumption|]. simpl.
  destruct (seg =? "..")%string eqn:E3.
  - destruct res as [|l res']; [destruct allow; repeat constructor; discriminate|].
    destruct (l =? "..")%string; [|now inversion Hres].
    destruct allow; [|assumption].
    constructor; [split; [reflexivity|discriminate]|assumption].
  - constructor; [|assumption].
    unfold clean, valid_name. rewrite E1, E2, E3, Hs. split; reflexivity.
Qed.

Lemma normalize_segs_out allow segs :
  Forall (fun s => sep_free s = true) segs ->
  Forall (fun s => clean s = true /\ (allow = false -> valid_name s = true))
         (normalize_segs allow segs).
Proof.
  intros H. unfold normalize_segs. apply Forall_rev.
  assert (G : forall acc,
             Forall (fun s => clean s = true /\ (allow = false -> valid_name s = true)) acc ->
             Forall (fun s => clean s = true /\ (allow = false -> valid_name s = true))
                    (fold_left (normalize_step allow) segs acc)).
  { induction H as [|x segs Hx _ IH]; intros acc Hacc; [assumption|].
    simpl. apply IH, normalize_step_out; assumption. }
  apply G; constructor.
Qed.

Lemma resolve_segs_valid cwd p : Forall (fun s => valid_name s = true) (resolve_segs cwd p).
Proof.
  unfold resolve_segs.
  eapply Forall_impl; [|apply normalize_segs_out, split_all_sep_free].
  simpl; intros a [_ H]; now apply H.
Qed.

Lemma split_abs_path segs :
  Forall (fun s => valid_name s = true) segs ->
  normalize_segs false (split (abs_path segs)) = segs.
Proof.
  intros H. unfold abs_path.
  change (String "/" (join_sep segs)) with ("" +++ String "/" (join_sep segs)).
  rewrite split_app_sep. simpl.
  destruct segs as [|x segs]; [reflexivity|].
  rewrite split_join_sep; [|discriminate|].
  - change ("" :: x :: segs) with ([""] ++ (x :: segs)).
    now rewrite normalize_segs_app_valid.
  - eapply Forall_impl; [|exact H]. intros a Ha; now apply clean_sep_free, valid_clean.
Qed.

Lemma resolve_segs_abs_path cwd segs :
  Forall (fun s => valid_name s = true) segs ->
  resolve_segs cwd (abs_path segs) = segs.
Proof. intros H; unfold resolve_segs; simpl; now apply split_abs_path. Qed.

Lemma strip_common_prefix rs rel : strip_common rs (rs ++ rel) = ([], rel).
Proof.
  induction rs as [|x rs IH]; [now destruct rel|].
  simpl; now rewrite String.eqb_refl.
Qed.

Lemma strip_common_Forall (P : string -> Prop) a b :
  Forall P a -> Forall P b ->
  Forall P (fst (strip_common a b)) /\ Forall P (snd (strip_common a b)).
Proof.
  revert b; induction a as [|x a IH]; intros b Ha Hb; [now split|].
  destruct b as [|y b]; [now split|].
  simpl. destruct (x =? y)%string; [|now split].
  inversion Ha; inversion Hb; subst; now apply IH.
Qed.

(** Whatever its arguments, [path.relative] returns clean segments joined by
    separators. *)
Lemma relative_clean cwd from to :
  exists segs, relative cwd from to = join_sep segs
               /\ Forall (fun s => clean s = true) segs.
Proof.
  unfold relative. destruct (from =? to)%string; [exists []; split; [reflexivity|constructor]|].
  destruct (strip_common (resolve_segs cwd from) (resolve_segs cwd to)) as [up down] eqn:E.
  eexists; split; [reflexivity|].
  apply Forall_app; split.
  - apply Forall_forall; intros x Hx; apply repeat_spec in Hx; now subst.
  - pose proof (strip_common_Forall (fun s => valid_name s = true) _ _
                  (resolve_segs_valid cwd from) (resolve_segs_valid cwd to)) as [_ H].
    rewrite E in H; now apply Forall_valid_clean.
Qed.

(** A path below [root], relative to it. *)
Lemma relative_below cwd root rel :
  Forall (fun s => valid_name s = true) rel ->
  relative cwd root (abs_path (resolve_segs cwd root ++ rel)) = join_sep rel.
Proof.
  intros H. unfold relative.
  assert (R : resolve_segs cwd (abs_path (resolve_segs cwd root ++ rel))
              = resolve_segs cwd root ++ rel).
  { apply resolve_segs_abs_path, Forall_app; split; [apply resolve_segs_valid|assumption]. }
  destruct (String.eqb_spec root (abs_path (resolve_segs cwd root ++ rel))) as [E|_].
  - rewrite <- E in R at 1.
    assert (rel = []) as ->; [|reflexivity].
    apply (app_inv_head (resolve_segs cwd root)); now rewrite app_nil_r.
  - now rewrite R, strip_common_prefix.
Qed.

(** *** [dirname] *)

Lemma dropWhile_app_stop {A} (p : A -> bool) l1 y l2 :
  Forall (fun a => p a = true) l1 -> p y = false ->
  dropWhile p (l1 ++ y :: l2) = y :: l2.
Proof.
  intros H Hy; induction H as [|a l1 Ha _ IH]; simpl; [now rewrite Hy|now rewrite Ha].
Qed.

Lemma dropWhile_all {A} (p : A -> bool) l :
  Forall (fun a => p a = true) l -> dropWhile p l = [].
Proof. intros H; induction H as [|a l Ha _ IH]; simpl; [reflexivity|now rewrite Ha]. Qed.

Lemma dropWhile_head {A} (p : A -> bool) a l : p a = false -> dropWhile p (a :: l) = a :: l.
Proof. intros H; simpl; now rewrite H. Qed.

Lemma sep_free_Forall x :
  sep_free x = true -> Forall (fun a => negb (is_sep a) = true) (chars x).
Proof. intros H; apply Forall_forall; now apply forallb_forall. Qed.

Lemma is_sep_slash : is_sep "/" = true.
Proof. reflexivity. Qed.

(** The path ends in a separator and a last segment: the result is what
    comes before that separator. *)
Lemma dirname_cut c pre x :
  sep_free x = true -> x <> "" -> is_sep c = false \/ pre <> "" ->
  dirname (String c (pre +++ String "/" x)) = String c pre.
Proof.
  intros Hx Hne Hc. unfold dirname.
  change (chars (String c (pre +++ String "/" x)))
    with (c :: chars (pre +++ String "/" x)).
  rewrite chars_app. change (chars (String "/" x)) with ("/"%char :: chars x).
  unfold dirname_chars. rewrite rev_app_distr. simpl rev.
  rewrite <- !app_assoc. simpl app.
  apply sep_free_Forall, Forall_rev in Hx.
  assert (Hd : dropWhile is_sep (rev (chars x) ++ "/"%char :: rev (chars pre))
               = rev (chars x) ++ "/"%char :: rev (chars pre)).
  { destruct (rev (chars x)) as [|a l] eqn:E.
    - apply (f_equal (@rev ascii)) in E; rewrite rev_involutive in E; simpl in E.
      destruct x; [congruence|discriminate].
    - inversion Hx; subst. simpl app. apply dropWhile_head. now apply negb_true_iff. }
  rewrite Hd, dropWhile_app_stop; [|assumption|reflexivity].
  rewrite rev_involutive, length_rev.
  destruct (is_sep c) eqn:Ec; simpl.
  - destruct Hc as [Hc|Hc]; [discriminate|].
    destruct pre as [|a pre]; [congruence|]. simpl. unfold str; simpl.
    f_equal. f_equal. apply str_chars.
  - unfold str; simpl; f_equal; apply str_chars.
Qed.

(** No separator after the first character. *)
Lemma dirname_single c x :
  sep_free x = true -> dirname (String c x) = if is_sep c then "/" else ".".
Proof.
  intros Hx. unfold dirname. change (chars (String c x)) with (c :: chars x).
  unfold dirname_chars.
  apply sep_free_Forall, Forall_rev in Hx.
  destruct (dropWhile is_sep (rev (chars x))) as [|a l] eqn:E.
  - simpl. now destruct (is_sep c).
  - assert (Hl : Forall (fun a => negb (is_sep a) = true) (a :: l)).
    { rewrite <- E. clear E. induction Hx as [|b m Hb Hm IH]; simpl; [constructor|].
      destruct (is_sep b) eqn:Eb; [assumption|constructor; [now rewrite Eb|assumption]]. }
    rewrite dropWhile_all by assumption. now destruct (is_sep c).
Qed.

Lemma clean_head x : clean x = true -> exists c x', x = String c x' /\ is_sep c = false.
Proof.
  intros H. pose proof (clean_nonempty _ H) as Hne. apply clean_sep_free in H.
  destruct x as [|c x']; [congruence|].
  rewrite sep_free_cons in H; apply andb_true_iff in H; destruct H as [H _].
  exists c, x'; split; [reflexivity|now apply negb_true_iff].
Qed.

Lemma join_sep_head segs :
  segs <> [] -> Forall (fun s => clean s = true) segs ->
  exists c r, join_sep segs = String c r /\ is_sep c = false.
Proof.
  destruct segs as [|x segs]; [congruence|]; intros _ H.
  inversion H as [|? ? Hx _]; subst.
  destruct (clean_head _ Hx) as (c & x' & -> & Hc).
  destruct segs; [now exists c, x'|].
  rewrite join_sep_cons2. simpl. now eexists c, _.
Qed.

Lemma dirname_join_sep pre x :
  Forall (fun s => clean s = true) (pre ++ [x]) ->
  dirname (join_sep (pre ++ [x])) = match pre with [] => "." | _ => join_sep pre end.
Proof.
  intros H. apply Forall_app in H; destruct H as [Hpre Hx].
  inversion Hx as [|? ? Hx' _]; subst.
  destruct pre as [|y pre].
  - simpl. destruct (clean_head _ Hx') as (c & x' & -> & Hc).
    apply clean_sep_free in Hx'. rewrite sep_free_cons in Hx'.
    apply andb_true_iff in Hx'; destruct Hx' as [_ Hx'].
    unfold join_sep; simpl. rewrite dirname_single, Hc by assumption. reflexivity.
  - rewrite join_sep_snoc by discriminate.
    destruct (join_sep_head (y :: pre) ltac:(discriminate) Hpre) as (c & r & E & Hc).
    rewrite E. simpl. apply dirname_cut; auto using clean_sep_free, clean_nonempty.
Qed.

Lemma dirname_abs_path pre x :
  Forall (fun s => clean s = true) (pre ++ [x]) ->
  dirname (abs_path (pre ++ [x])) = abs_path pre.
Proof.
  intros H. apply Forall_app in H; destruct H as [Hpre Hx].
  inversion Hx as [|? ? Hx' _]; subst.
  unfold abs_path. destruct pre as [|y pre].
  - simpl. unfold join_sep; simpl. now rewrite dirname_single by now apply clean_sep_free.
  - rewrite join_sep_snoc by discriminate.
    apply dirname_cut; auto using clean_sep_free, clean_nonempty.
    right. apply join_sep_nonempty; [discriminate|assumption].
Qed.

(** The directory part of a relative path made of clean segments. *)
Lemma dirname_clean segs :
  Forall (fun s => clean s = true) segs ->
  dirname (join_sep segs) = "."
  \/ exists pre, pre <> [] /\ Forall (fun s => clean s = true) pre
                 /\ dirname (join_sep segs) = join_sep pre.
Proof.
  intros H. destruct (rev segs) as [|x rpre] eqn:E.
  - apply (f_equal (@rev string)) in E; rewrite rev_involutive in E; subst; now left.
  - apply (f_equal (@rev string)) in E; rewrite rev_involutive in E; simpl in E; subst.
    rewrite dirname_join_sep by assumption.
    destruct (rev rpre) eqn:E'; [now left|right].
    exists (s :: l); repeat split; [discriminate|now apply Forall_app in H].
Qed.

End PathFacts.

(** * Sets, sorting and the two list passes *)


Lemma str_lt_iff a b : str_lt a b <-> OrderedTypeEx.String_as_OT.lt a b.
Proof.
  unfold str_lt, String.ltb. rewrite <- OrderedTypeEx.String_as_OT.cmp_lt.
  unfold OrderedTypeEx.String_as_OT.cmp.
  destruct (a ?= b)%string; split; congruence.
Qed.

Lemma str_le_iff a b : str_le a b <-> a = b \/ str_lt a b.
Proof.
  unfold str_le, str_lt, String.leb, String.ltb.
  destruct (a ?= b)%string eqn:E; split; intros H; try tauto; try congruence.
  - left; now apply String.compare_eq_iff.
  - destruct H as [->|H]; [|discriminate].
    assert (X : (b ?= b)%string = Eq) by now apply OrderedTypeEx.String_as_OT.cmp_eq.
    congruence.
Qed.

Lemma str_lt_trans a b c : str_lt a b -> str_lt b c -> str_lt a c.
Proof. rewrite !str_lt_iff; apply OrderedTypeEx.String_as_OT.lt_trans. Qed.

Lemma str_le_trans a b c : str_le a b -> str_le b c -> str_le a c.
Proof.
  rewrite !str_le_iff; intros [->|H1] [->|H2]; auto.
  right; eapply str_lt_trans; eassumption.
Qed.

Lemma str_le_total a b : str_le a b \/ str_le b a.
Proof. apply String.leb_total. Qed.

Lemma insert_sorted_perm x l : Permutation (insert_sorted x l) (x :: l).
Proof.
  induction l as [|y l IH]; simpl; [reflexivity|].
  destruct (x <=? y)%string; [reflexivity|].
  rewrite IH; apply perm_swap.
Qed.

Lemma sort_perm l : Permutation (sort l) l.
Proof.
  induction l as [|x l IH]; simpl; [reflexivity|].
  rewrite insert_sorted_perm; now constructor.
Qed.

Lemma insert_sorted_sorted x l :
  StronglySorted str_le l -> StronglySorted str_le (insert_sorted x l).
Proof.
  induction 1 as [|y l Hl IH Hy]; simpl; [repeat constructor|].
  destruct (x <=? y)%string eqn:E.
  - constructor; [now constructor|].
    constructor; [exact E|].
    eapply Forall_impl; [|exact Hy]. intros a; now apply str_le_trans.
  - constructor; [assumption|].
    eapply Permutation_Forall; [symmetry; apply insert_sorted_perm|].
    constructor; [|assumption].
    destruct (str_le_total x y) as [H|H]; [unfold str_le in H; congruence|assumption].
Qed.

Lemma sort_sorted l : StronglySorted str_le (sort l).
Proof. induction l; simpl; [constructor|now apply insert_sorted_sorted]. Qed.

Lemma sorted_strict l : NoDup l -> StronglySorted str_le l -> StronglySorted str_lt l.
Proof.
  intros Hn Hs. induction Hs as [|x l Hl IH Hx]; [constructor|].
  inversion Hn as [|? ? Hnx Hnl]; subst. constructor; [now apply IH|].
  apply Forall_forall; intros y Hy.
  rewrite Forall_forall in Hx.
  destruct (proj1 (str_le_iff _ _) (Hx y Hy)) as [->|]; [contradiction|assumption].
Qed.


Lemma set_add_In x y s : In y (set_add x s) <-> y = x \/ In y s.
Proof.
  unfold set_add. destruct (existsb (String.eqb x) s) eqn:E.
  - split; [tauto|]. intros [->|H]; [|assumption].
    apply existsb_exists in E; destruct E as (z & Hz & Ez).
    apply String.eqb_eq in Ez; now subst.
  - rewrite in_app_iff; simpl; intuition.
Qed.

Lemma set_add_NoDup x s : NoDup s -> NoDup (set_add x s).
Proof.
  intros H. unfold set_add. destruct (existsb (String.eqb x) s) eqn:E; [assumption|].
  apply NoDup_app; [assumption|repeat constructor; simpl; tauto|].
  intros y Hy [<-|[]].
  assert (X : existsb (String.eqb x) s = true); [|congruence].
  apply existsb_exists; exists x; split; [assumption|apply String.eqb_refl].
Qed.

Lemma fold_set_add_In l acc y :
  In y (fold_left (fun acc d => set_add d acc) l acc) <-> In y acc \/ In y l.
Proof.
  revert acc; induction l as [|x l IH]; intros acc; simpl; [tauto|].
  rewrite IH, set_add_In; intuition.
Qed.

Lemma fold_set_add_NoDup l acc :
  NoDup acc -> NoDup (fold_left (fun acc d => set_add d acc) l acc).
Proof.
  revert acc; induction l as [|x l IH]; intros acc H; simpl; [assumption|].
  now apply IH, set_add_NoDup.
Qed.

Lemma dedup_In l y : In y (dedup l) <-> In y l.
Proof. unfold dedup; rewrite fold_set_add_In; simpl; tauto. Qed.

Lemma dedup_NoDup l : NoDup (dedup l).
Proof. apply fold_set_add_NoDup; constructor. Qed.

Section ListPasses.
Variable cwd : string.


Lemma getDirectories_eq files mountDir :
  getDirectories cwd files mountDir
  = sort (dedup (filter (kept mountDir) (map (dir_of cwd mountDir) files))).
Proof.
  unfold getDirectories, dedup. f_equal.
  generalize (@nil string) as acc.
  induction files as [|f files IH]; intros acc; [reflexivity|].
  simpl. fold (dir_of cwd mountDir f). fold (kept mountDir (dir_of cwd mountDir f)).
  destruct (kept mountDir (dir_of cwd mountDir f)); simpl; apply IH.
Qed.

Lemma getDirectories_In files mountDir d :
  In d (getDirectories cwd files mountDir)
  <-> exists f, In f files /\ d = dir_of cwd mountDir f /\ kept mountDir d = true.
Proof.
  rewrite getDirectories_eq.
  split.
  - intros H. apply (Permutation_in _ (sort_perm _)) in H.
    apply dedup_In, filter_In in H. destruct H as [H K].
    apply in_map_iff in H. destruct H as (f & <- & Hf). now exists f.
  - intros (f & Hf & -> & K).
    apply (Permutation_in _ (Permutation_sym (sort_perm _))).
    apply dedup_In, filter_In. split; [|assumption].
    apply in_map_iff; now exists f.
Qed.

Lemma getDirectories_NoDup files mountDir : NoDup (getDirectories cwd files mountDir).
Proof.
  rewrite getDirectories_eq.
  eapply Permutation_NoDup; [symmetry; apply sort_perm|apply dedup_NoDup].
Qed.

Lemma getDirectories_sorted files mountDir :
  StronglySorted str_lt (getDirectories cwd files mountDir).
Proof.
  apply sorted_strict; [apply getDirectories_NoDup|].
  rewrite getDirectories_eq; apply sort_sorted.
Qed.

Lemma categorizeFiles_eq files mountDir :
  rootFiles (categorizeFiles files mountDir)
  = filter (fun f => (Path.dirname f =? mountDir)%string) files
  /\ subdirFiles (categorizeFiles files mountDir)
     = filter (fun f => negb (Path.dirname f =? mountDir)%string) files.
Proof.
  unfold categorizeFiles.
  assert (G : forall acc,
    let r := fold_left
      (fun (acc : categorized) (file : string) =>
         if (Path.dirname file =? mountDir)%string
         then {| rootFiles := rootFiles acc ++ [file]; subdirFiles := subdirFiles acc |}
         else {| rootFiles := rootFiles acc; subdirFiles := subdirFiles acc ++ [file] |})
      files acc in
    rootFiles r = rootFiles acc ++ filter (fun f => (Path.dirname f =? mountDir)%string) files
    /\ subdirFiles r
       = subdirFiles acc ++ filter (fun f => negb (Path.dirname f =? mountDir)%string) files).
  { induction files as [|f files IH]; intros acc; simpl; [now rewrite !app_nil_r|].
    destruct (IH (if (Path.dirname f =? mountDir)%string
                  then {| rootFiles := rootFiles acc ++ [f]; subdirFiles := subdirFiles acc |}
                  else {| rootFiles := rootFiles acc; subdirFiles := subdirFiles acc ++ [f] |}))
      as [-> ->].
    destruct (Path.dirname f =? mountDir)%string; simpl; now rewrite <- !app_assoc. }
  apply (G {| rootFiles := []; subdirFiles := [] |}).
Qed.

End ListPasses.

(** * What a call of [createFileShare] adds to its scope *)

Section Planner.
Variable fs : node.
Variable cwd : string.

Lemma hasChild_app name a b : hasChild name (a ++ b) = hasChild name a || hasChild name b.
Proof. unfold hasChild. apply existsb_app. Qed.

Lemma hasChild_In name cs :
  hasChild name cs = true <-> exists c, In c cs /\ childName c = name.
Proof.
  unfold hasChild. rewrite existsb_exists. split; intros (c & Hc & E); exists c; split; auto.
  - now apply String.eqb_eq.
  - now apply String.eqb_eq.
Qed.

Lemma hasChild_false name cs :
  hasChild name cs = false <-> forall c, In c cs -> childName c <> name.
Proof.
  split.
  - intros H c Hc E. assert (hasChild name cs = true) by (apply hasChild_In; eauto). congruence.
  - intros H. destruct (hasChild name cs) eqn:E; [|reflexivity].
    apply hasChild_In in E. destruct E as (c & Hc & E). now elim (H c Hc).
Qed.

(** What [accepted] returns: a prefix, all of the list unless the creation
    stopped, and then it stopped at a name the scope held by then. *)
Lemma accepted_spec have cs :
  exists rest,
    cs = fst (accepted have cs) ++ rest
    /\ match snd (accepted have cs) with
       | None => rest = []
       | Some name =>
           exists c rest', rest = c :: rest' /\ name = childName c
                           /\ hasChild name (have ++ fst (accepted have cs)) = true
       end.
Proof.
  revert have; induction cs as [|c cs IH]; intros have; simpl.
  - now exists [].
  - destruct (hasChild (childName c) have) eqn:E; simpl.
    + exists (c :: cs). split; [reflexivity|]. exists c, cs. now rewrite app_nil_r.
    + destruct (IH (have ++ [c])) as (rest & E1 & E2). exists rest. split.
      * now rewrite <- E1.
      * destruct (snd (accepted (have ++ [c]) cs)); [|exact E2].
        destruct E2 as (c' & rest' & -> & -> & H). exists c', rest'.
        now rewrite <- app_assoc in H.
Qed.

Lemma accepted_None have cs :
  snd (accepted have cs) = None -> fst (accepted have cs) = cs.
Proof.
  intros H. destruct (accepted_spec have cs) as (rest & E & Hr). rewrite H in Hr.
  subst rest. now rewrite app_nil_r in E.
Qed.

Lemma accepted_app have a b :
  accepted have (a ++ b)
  = match snd (accepted have a) with
    | Some name => (fst (accepted have a), Some name)
    | None => (a ++ fst (accepted (have ++ a) b), snd (accepted (have ++ a) b))
    end.
Proof.
  revert have; induction a as [|c a IH]; intros have; simpl.
  - rewrite app_nil_r. now destruct (accepted have b).
  - destruct (hasChild (childName c) have); simpl; [reflexivity|].
    rewrite IH. destruct (snd (accepted (have ++ [c]) a)); simpl; [reflexivity|].
    now rewrite <- app_assoc.
Qed.

(** Nothing stops the creation exactly when every name is new where its
    construct is created. *)
Lemma accepted_all have cs :
  snd (accepted have cs) = None
  <-> (forall c, In c cs -> hasChild (childName c) have = false)
      /\ distinct_names cs = true.
Proof.
  unfold distinct_names.
  revert have; induction cs as [|c cs IH]; intros have; simpl.
  - split; [intros _; split; [intros c []|reflexivity]|reflexivity].
  - destruct (hasChild (childName c) have) eqn:E; simpl.
    + split; [discriminate|]. intros [H _]. rewrite (H c (or_introl eq_refl)) in E. discriminate.
    + rewrite IH. split.
      * intros [H1 H2]. split.
        -- intros c' [<-|Hc']; [exact E|]. specialize (H1 c' Hc').
           rewrite hasChild_app in H1. now apply orb_false_iff in H1.
        -- rewrite H2, andb_true_r. apply negb_true_iff.
           destruct (existsb (String.eqb (childName c)) (map childName cs)) eqn:X; [|reflexivity].
           apply existsb_exists in X. destruct X as (n & Hn & En). apply String.eqb_eq in En.
           apply in_map_iff in Hn. destruct Hn as (c' & Ec' & Hc'). specialize (H1 c' Hc').
           rewrite hasChild_app in H1. apply orb_false_iff in H1. destruct H1 as [_ H1].
           simpl in H1. rewrite orb_false_r in H1. apply String.eqb_neq in H1. congruence.
      * intros [H1 H2]. apply andb_true_iff in H2. destruct H2 as [H2 H3]. split; [|exact H3].
        intros c' Hc'. rewrite hasChild_app, (H1 c' (or_intror Hc')). simpl.
        rewrite orb_false_r. apply String.eqb_neq. intros En. apply negb_true_iff in H2.
        assert (X : existsb (String.eqb (childName c)) (map childName cs) = true).
        { apply existsb_exists. exists (childName c'). split; [now apply in_map|].
          now apply String.eqb_eq. }
        congruence.
Qed.

(** Children the call does not meet do not change what it creates. *)
Lemma accepted_frame extra have cs :
  (forall c, In c extra ->
     hasChild (childName c) (fst (accepted have cs)) = false
     /\ snd (accepted have cs) <> Some (childName c)) ->
  accepted (extra ++ have) cs = accepted have cs.
Proof.
  revert have; induction cs as [|c cs IH]; intros have H; simpl in *; [reflexivity|].
  rewrite hasChild_app. destruct (hasChild (childName c) have) eqn:E.
  - now rewrite orb_true_r.
  - simpl in H. rewrite orb_false_r.
    assert (X : hasChild (childName c) extra = false).
    { apply hasChild_false. intros c' Hc' En. destruct (H c' Hc') as [H1 _].
      rewrite En, String.eqb_refl in H1. discriminate. }
    rewrite X, <- app_assoc, IH; [reflexivity|].
    intros c' Hc'. destruct (H c' Hc') as [H1 H2]. split; [|exact H2].
    now apply orb_false_iff in H1.
Qed.

Lemma mapM_directories (mk : string -> StorageShareDirectory) l s :
  mapM (fun dir => addChild (CDirectory (mk dir)) ;; ret (mk dir)) l s
  = (outcome (map mk l) (snd (accepted (children s) (map (fun dir => CDirectory (mk dir)) l))),
     {| children := children s
                    ++ fst (accepted (children s) (map (fun dir => CDirectory (mk dir)) l));
        shares := shares s |}).
Proof.
  revert s; induction l as [|d l IH]; intros s; simpl.
  - unfold ret; rewrite app_nil_r; now destruct s.
  - unfold bind at 1. unfold bind at 1. unfold addChild at 1.
    destruct (hasChild (childName (CDirectory (mk d))) (children s)) eqn:E; simpl.
    + rewrite app_nil_r. now destruct s.
    + unfold ret at 1. unfold bind at 1. rewrite IH. cbn [children shares].
      rewrite <- app_assoc. simpl.
      now destruct (snd (accepted (children s ++ [CDirectory (mk d)])
                           (map (fun dir => CDirectory (mk dir)) l))).
Qed.

Lemma forEach_files (mk : string -> StorageShareFile) l s :
  forEach l (fun file => addChild (CFile (mk file))) s
  = (outcome tt (snd (accepted (children s) (map (fun file => CFile (mk file)) l))),
     {| children := children s
                    ++ fst (accepted (children s) (map (fun file => CFile (mk file)) l));
        shares := shares s |}).
Proof.
  revert s; induction l as [|f l IH]; intros s; simpl.
  - unfold ret; rewrite app_nil_r; now destruct s.
  - unfold bind at 1. unfold addChild at 1.
    destruct (hasChild (childName (CFile (mk f))) (children s)) eqn:E; simpl.
    + rewrite app_nil_r. now destruct s.
    + rewrite IH. cbn [children shares]. rewrite <- app_assoc. reflexivity.
Qed.

(** The three outcomes of a call.  The name of the share is taken: the call
    throws and leaves the scope as it was. *)
Lemma createFileShare_taken props s :
  hasChild (childName (CShare (theShare props))) (children s) = true ->
  createFileShare fs cwd props s
  = (Throw (DuplicateConstruct (childName (CShare (theShare props)))), s).
Proof.
  intros H. unfold createFileShare.
  unfold bind at 1. unfold newStorageShare, bind at 1, addChild at 1.
  change (hasChild _ (children s))
    with (hasChild (childName (CShare (theShare props))) (children s)).
  now rewrite H.
Qed.

(** The walk throws: the share has been created and registered. *)
Lemma createFileShare_Throw props s e :
  hasChild (childName (CShare (theShare props))) (children s) = false ->
  getAllFiles fs cwd (localMountDir props) = Throw e ->
  createFileShare fs cwd props s
  = (Throw e,
     {| children := children s ++ [CShare (theShare props)];
        shares := assign (shareName props) (theShare props) (shares s) |}).
Proof.
  intros Hf H. unfold createFileShare.
  unfold bind at 1. unfold newStorageShare, bind at 1, addChild at 1.
  change (hasChild _ (children s))
    with (hasChild (childName (CShare (theShare props))) (children s)).
  rewrite Hf. unfold ret at 1.
  unfold bind at 1, setShare at 1. simpl.
  unfold bind at 1, lift at 1. now rewrite H.
Qed.

(** The walk returns: the directories and the files are created in turn, up
    to the first whose name the scope already holds. *)
Lemma accepted_three have D R N :
  accepted have (D ++ R ++ N)
  = match snd (accepted have D) with
    | Some name => (fst (accepted have D), Some name)
    | None =>
        match snd (accepted (have ++ D) R) with
        | Some name => (D ++ fst (accepted (have ++ D) R), Some name)
        | None => (D ++ R ++ fst (accepted (have ++ D ++ R) N),
                   snd (accepted (have ++ D ++ R) N))
        end
    end.
Proof.
  rewrite accepted_app. destruct (snd (accepted have D)); [reflexivity|].
  rewrite accepted_app. destruct (snd (accepted (have ++ D) R)); simpl; [reflexivity|].
  now rewrite <- !app_assoc.
Qed.

Lemma createFileShare_Ok props s files :
  hasChild (childName (CShare (theShare props))) (children s) = false ->
  getAllFiles fs cwd (localMountDir props) = Ok files ->
  createFileShare fs cwd props s
  = (outcome (theShare props)
       (snd (accepted (children s ++ [CShare (theShare props)]) (planned cwd props files))),
     {| children := children s ++ CShare (theShare props)
                    :: fst (accepted (children s ++ [CShare (theShare props)])
                              (planned cwd props files));
        shares := assign (shareName props) (theShare props) (shares s) |}).
Proof.
  intros Hf H. unfold planned.
  set (dirs := getDirectories cwd files (localMountDir props)).
  set (c := categorizeFiles files (localMountDir props)).
  set (have := children s ++ [CShare (theShare props)]).
  rewrite (accepted_three have).
  unfold createFileShare.
  unfold bind at 1. unfold newStorageShare, bind at 1, addChild at 1.
  change (hasChild _ (children s))
    with (hasChild (childName (CShare (theShare props))) (children s)).
  rewrite Hf. unfold ret at 1.
  cbv beta iota zeta. cbn [children shares share_id].
  change {| share_id := _; share_name := _; share_storageAccountName := _; share_quota := _ |}
    with (theShare props).
  unfold bind at 1, setShare at 1. cbn [children shares].
  unfold bind at 1, lift at 1. rewrite H. fold dirs. fold c. fold have.
  unfold bind at 1, newStorageShareDirectory. cbv zeta.
  rewrite (mapM_directories (theDirectory props)). cbn [children shares].
  rewrite <- (map_map (theDirectory props) CDirectory dirs).
  destruct (snd (accepted have (map CDirectory (map (theDirectory props) dirs)))) as [n|] eqn:E1.
  { simpl. unfold have. now rewrite <- app_assoc. }
  rewrite (accepted_None _ _ E1). simpl outcome. cbv iota beta.
  unfold bind at 1, newStorageShareFile.
  rewrite (forEach_files (rootFile props (map (theDirectory props) dirs))). cbn [children shares].
  rewrite <- (map_map (rootFile props (map (theDirectory props) dirs)) CFile (rootFiles c)).
  destruct (snd (accepted (have ++ map CDirectory (map (theDirectory props) dirs))
                   (map CFile (map (rootFile props (map (theDirectory props) dirs))
                                   (rootFiles c))))) as [n|] eqn:E2.
  { simpl. unfold have. now rewrite <- !app_assoc. }
  rewrite (accepted_None _ _ E2). simpl outcome. cbv iota beta.
  unfold bind at 1.
  rewrite (forEach_files (nestedFile cwd props (map (theDirectory props) dirs))).
  cbn [children shares].
  rewrite <- (map_map (nestedFile cwd props (map (theDirectory props) dirs)) CFile
                (subdirFiles c)).
  rewrite <- !app_assoc.
  destruct (snd (accepted _ (map CFile (map (nestedFile cwd props (map (theDirectory props) dirs))
                                           (subdirFiles c))))) as [n|] eqn:E3;
    simpl; unfold have, ret; rewrite <- ?app_assoc; reflexivity.
Qed.

Lemma skipn_length_app {A} (l r : list A) : skipn (List.length l) (l ++ r) = r.
Proof. induction l; simpl; auto. Qed.

Lemma directoriesOf_app a b : directoriesOf (a ++ b) = directoriesOf a ++ directoriesOf b.
Proof. apply flat_map_app. Qed.

Lemma filesOf_app a b : filesOf (a ++ b) = filesOf a ++ filesOf b.
Proof. apply flat_map_app. Qed.

Lemma directoriesOf_dirs l : directoriesOf (map CDirectory l) = l.
Proof. induction l; simpl; congruence. Qed.

Lemma directoriesOf_files l : directoriesOf (map CFile l) = [].
Proof. induction l; simpl; congruence. Qed.

Lemma filesOf_dirs l : filesOf (map CDirectory l) = [].
Proof. induction l; simpl; congruence. Qed.

Lemma filesOf_files l : filesOf (map CFile l) = l.
Proof. induction l; simpl; congruence. Qed.

(** A part of the directories followed by the files that is created first:
    some of the directories, or all of them and some of the files. *)
Lemma created_first (a rest : list construct) ds fl :
  a ++ rest = map CDirectory ds ++ map CFile fl ->
  (exists d1 d2, ds = d1 ++ d2 /\ a = map CDirectory d1)
  \/ (exists f1 f2, fl = f1 ++ f2 /\ a = map CDirectory ds ++ map CFile f1).
Proof.
  intros H. apply app_eq_app in H. destruct H as (l & [[H1 H2]|[H1 H2]]).
  - right. apply map_eq_app in H2. destruct H2 as (f1 & f2 & -> & <- & _).
    exists f1, f2. now split.
  - left. apply map_eq_app in H1. destruct H1 as (d1 & d2 & -> & <- & _).
    exists d1, d2. now split.
Qed.

Lemma createFileShare_run props s :
  exists r cs,
    run_of fs cwd props s r cs
    /\ fst (createFileShare fs cwd props s) = r
    /\ children (snd (createFileShare fs cwd props s)) = children s ++ cs
    /\ (cs <> [] ->
        shares (snd (createFileShare fs cwd props s))
        = assign (shareName props) (theShare props) (shares s))
    /\ (cs = [] -> snd (createFileShare fs cwd props s) = s).
Proof.
  destruct (hasChild (childName (CShare (theShare props))) (children s)) eqn:Hf.
  - pose proof (createFileShare_taken _ _ Hf) as R. eexists _, []. split.
    + now apply run_taken.
    + rewrite R. simpl. rewrite app_nil_r. repeat split; auto. congruence.
  - destruct (getAllFiles fs cwd (localMountDir props)) as [files|e] eqn:E.
    + pose proof (createFileShare_Ok _ _ _ Hf E) as R.
      destruct (accepted_spec (children s ++ [CShare (theShare props)])
                  (planned cwd props files)) as (rest & E1 & E2).
      eexists _, _. split.
      * eapply (run_walk_returns fs cwd props s files _ rest
                  (snd (accepted (children s ++ [CShare (theShare props)])
                          (planned cwd props files)))); eauto.
        -- intros X. now rewrite X in E2.
        -- intros name X. rewrite X in E2. destruct E2 as (c & rest' & -> & -> & H).
           exists c, rest'. repeat split. now rewrite <- app_assoc in H.
      * rewrite R. simpl. repeat split; auto; discriminate.
    + pose proof (createFileShare_Throw _ _ _ Hf E) as R. eexists _, _. split.
      * exact (run_walk_throws fs cwd props s e Hf E).
      * rewrite R. simpl. repeat split; auto; discriminate.
Qed.

Lemma emitted_run props s :
  exists r, run_of fs cwd props s r (emitted fs cwd props s)
            /\ fst (createFileShare fs cwd props s) = r.
Proof.
  destruct (createFileShare_run props s) as (r & cs & H & E1 & E2 & _).
  exists r. unfold emitted. rewrite E2, skipn_length_app. now split.
Qed.

(** A call that returns has created all it set out to create. *)
Lemma createFileShare_returns props s share :
  fst (createFileShare fs cwd props s) = Ok share ->
  share = theShare props
  /\ hasChild (childName (CShare (theShare props))) (children s) = false
  /\ exists files,
       getAllFiles fs cwd (localMountDir props) = Ok files
       /\ createFileShare fs cwd props s
          = (Ok (theShare props),
             {| children := children s ++ added cwd props files;
                shares := assign (shareName props) (theShare props) (shares s) |}).
Proof.
  intros H.
  destruct (hasChild (childName (CShare (theShare props))) (children s)) eqn:Hf.
  { rewrite (createFileShare_taken _ _ Hf) in H. discriminate. }
  destruct (getAllFiles fs cwd (localMountDir props)) as [files|e] eqn:E.
  2:{ rewrite (createFileShare_Throw _ _ _ Hf E) in H. discriminate. }
  pose proof (createFileShare_Ok _ _ _ Hf E) as R. rewrite R in H. simpl in H.
  destruct (snd (accepted (children s ++ [CShare (theShare props)]) (planned cwd props files)))
    eqn:X; simpl in H; [discriminate|].
  inversion H; subst share. split; [reflexivity|]. split; [reflexivity|].
  exists files. split; [reflexivity|]. rewrite R, (accepted_None _ _ X). reflexivity.
Qed.

(** The plan of a call: nothing, or some of the directories, or all of them
    and some of the files. *)
Lemma plan_cases props s :
  (plan_directories (planOf fs cwd props s) = [] /\ plan_files (planOf fs cwd props s) = [])
  \/ exists files,
       getAllFiles fs cwd (localMountDir props) = Ok files
       /\ let dirs := map (theDirectory props)
                          (getDirectories cwd files (localMountDir props)) in
          let c := categorizeFiles files (localMountDir props) in
          (exists d1 d2,
              dirs = d1 ++ d2
              /\ plan_directories (planOf fs cwd props s) = d1
              /\ plan_files (planOf fs cwd props s) = [])
          \/ (exists f1 f2,
                 map (rootFile props dirs) (rootFiles c)
                 ++ map (nestedFile cwd props dirs) (subdirFiles c) = f1 ++ f2
                 /\ plan_directories (planOf fs cwd props s) = dirs
                 /\ plan_files (planOf fs cwd props s) = f1).
Proof.
  destruct (emitted_run props s) as (r & H & _). unfold planOf; simpl.
  destruct H as [Hf | e Hf E | files a rest stopped Hf E Ep Hn Hs].
  - left. now split.
  - left. now split.
  - right. exists files. split; [exact E|]. unfold planned in Ep. cbv zeta in Ep.
    set (dirs := map (theDirectory props) (getDirectories cwd files (localMountDir props))) in *.
    set (c := categorizeFiles files (localMountDir props)) in *.
    rewrite <- map_app in Ep. symmetry in Ep.
    destruct (created_first _ _ _ _ Ep) as [(d1 & d2 & E1 & ->)|(f1 & f2 & E1 & ->)].
    + left. exists d1, d2. simpl. now rewrite directoriesOf_dirs, filesOf_dirs.
    + right. exists f1, f2. simpl.
      rewrite directoriesOf_app, filesOf_app, directoriesOf_dirs, directoriesOf_files,
        filesOf_dirs, filesOf_files, app_nil_r. now simpl.
Qed.

Lemma plan_Throw props s e :
  getAllFiles fs cwd (localMountDir props) = Throw e ->
  plan_directories (planOf fs cwd props s) = []
  /\ plan_files (planOf fs cwd props s) = [].
Proof.
  intros H. destruct (plan_cases props s) as [X|(files & E & _)]; [exact X|congruence].
Qed.

(** The plan of a call that returns. *)
Lemma plan_Ok props s share :
  fst (createFileShare fs cwd props s) = Ok share ->
  exists files,
    getAllFiles fs cwd (localMountDir props) = Ok files
    /\ let dirs := map (theDirectory props)
                       (getDirectories cwd files (localMountDir props)) in
       let c := categorizeFiles files (localMountDir props) in
       plan_directories (planOf fs cwd props s) = dirs
       /\ plan_files (planOf fs cwd props s)
          = map (rootFile props dirs) (rootFiles c)
            ++ map (nestedFile cwd props dirs) (subdirFiles c).
Proof.
  intros H. destruct (createFileShare_returns _ _ _ H) as (_ & _ & files & E & R).
  exists files. split; [exact E|]. intros dirs c. unfold planOf, emitted; simpl.
  rewrite R. simpl. rewrite skipn_length_app. unfold added, planned. fold dirs; fold c.
  simpl. rewrite !directoriesOf_app, !filesOf_app, directoriesOf_dirs, !directoriesOf_files,
    filesOf_dirs, !filesOf_files. simpl. now rewrite app_nil_r.
Qed.

Lemma children_run props s :
  children (snd (createFileShare fs cwd props s)) = children s ++ emitted fs cwd props s.
Proof.
  destruct (createFileShare_run props s) as (r & cs & _ & _ & E & _).
  unfold emitted. now rewrite E, skipn_length_app.
Qed.

(** What a call has created, read from its plan. *)
Lemma emitted_cases props s :
  (hasChild (childName (CShare (theShare props))) (children s) = true
   /\ emitted fs cwd props s = [])
  \/ (hasChild (childName (CShare (theShare props))) (children s) = false
      /\ emitted fs cwd props s
         = CShare (theShare props)
           :: map CDirectory (plan_directories (planOf fs cwd props s))
           ++ map CFile (plan_files (planOf fs cwd props s))).
Proof.
  destruct (emitted_run props s) as (r & H & _). unfold planOf; simpl.
  destruct H as [Hf | e Hf E | files a rest stopped Hf E Ep Hn Hs].
  - left. now split.
  - right. now split.
  - right. split; [exact Hf|]. unfold planned in Ep. cbv zeta in Ep.
    rewrite <- map_app in Ep. symmetry in Ep.
    destruct (created_first _ _ _ _ Ep) as [(d1 & d2 & E1 & ->)|(f1 & f2 & E1 & ->)]; simpl.
    + now rewrite directoriesOf_dirs, filesOf_dirs, app_nil_r.
    + now rewrite directoriesOf_app, filesOf_app, directoriesOf_dirs, directoriesOf_files,
        filesOf_dirs, filesOf_files, app_nil_r.
Qed.

Lemma distinct_snoc have c :
  distinct_names have = true -> hasChild (childName c) have = false ->
  distinct_names (have ++ [c]) = true.
Proof.
  unfold distinct_names. induction have as [|a have IH]; intros Hd Hc; [reflexivity|].
  simpl in *. apply andb_true_iff in Hd. destruct Hd as [Ha Hd].
  apply orb_false_iff in Hc. destruct Hc as [Hac Hc].
  rewrite (IH Hd Hc), andb_true_r. apply negb_true_iff in Ha.
  rewrite map_app, existsb_app, Ha. simpl. now rewrite Hac.
Qed.

Lemma accepted_distinct cs : forall have,
  distinct_names have = true -> distinct_names (have ++ fst (accepted have cs)) = true.
Proof.
  induction cs as [|c cs IH]; intros have H; simpl.
  - now rewrite app_nil_r.
  - destruct (hasChild (childName c) have) eqn:E; simpl.
    + now rewrite app_nil_r.
    + change (c :: ?l) with ([c] ++ l). rewrite app_assoc. apply IH.
      now apply distinct_snoc.
Qed.

(** When nothing stops the creation of the directories, they are the
    directories of the plan. *)
Lemma directories_created props s files :
  hasChild (childName (CShare (theShare props))) (children s) = false ->
  getAllFiles fs cwd (localMountDir props) = Ok files ->
  snd (accepted (children s ++ [CShare (theShare props)])
         (map CDirectory (map (theDirectory props)
                              (getDirectories cwd files (localMountDir props))))) = None ->
  plan_directories (planOf fs cwd props s)
  = map (theDirectory props) (getDirectories cwd files (localMountDir props)).
Proof.
  intros Hs E H. unfold planOf, emitted; simpl.
  rewrite (createFileShare_Ok _ _ _ Hs E). cbn [snd children].
  rewrite skipn_length_app. unfold planned. cbv zeta.
  rewrite accepted_app, H. cbn [fst directoriesOf flat_map app].
  change (flat_map _ ?l) with (directoriesOf l).
  rewrite directoriesOf_app, directoriesOf_dirs.
  rewrite <- map_app.
  destruct (accepted_spec
              ((children s ++ [CShare (theShare props)])
               ++ map CDirectory (map (theDirectory props)
                                      (getDirectories cwd files (localMountDir props))))
              (map CFile
                 (map (rootFile props
                         (map (theDirectory props)
                              (getDirectories cwd files (localMountDir props))))
                      (rootFiles (categorizeFiles files (localMountDir props)))
                  ++ map (nestedFile cwd props
                            (map (theDirectory props)
                                 (getDirectories cwd files (localMountDir props))))
                       (subdirFiles (categorizeFiles files (localMountDir props))))))
    as (rest & X & _).
  apply map_eq_app in X. destruct X as (f1 & f2 & _ & <- & _).
  now rewrite directoriesOf_files, app_nil_r.
Qed.

(** A scope whose children have other names than those the call creates
    on the empty scope: the call does there what it does on the empty
    scope. *)
Lemma createFileShare_frame props s :
  (forall c, In c (children s) ->
     hasChild (childName c) (children (snd (createFileShare fs cwd props empty_scope))) = false) ->
  createFileShare fs cwd props s
  = (fst (createFileShare fs cwd props empty_scope),
     {| children := children s ++ children (snd (createFileShare fs cwd props empty_scope));
        shares := assign (shareName props) (theShare props) (shares s) |}).
Proof.
  intros H.
  assert (H0 : hasChild (childName (CShare (theShare props))) (children empty_scope) = false)
    by reflexivity.
  assert (Hin : In (CShare (theShare props))
                   (children (snd (createFileShare fs cwd props empty_scope)))).
  { rewrite children_run.
    destruct (emitted_cases props empty_scope) as [[X _]|[_ ->]]; [discriminate|now left]. }
  assert (Hs : hasChild (childName (CShare (theShare props))) (children s) = false).
  { apply hasChild_false. intros c Hc E. specialize (H c Hc).
    rewrite hasChild_false in H. now apply (H _ Hin). }
  destruct (getAllFiles fs cwd (localMountDir props)) as [files|e] eqn:E.
  - rewrite (createFileShare_Ok _ _ _ H0 E) in H |- *.
    rewrite (createFileShare_Ok _ _ _ Hs E). cbn [fst snd children shares app] in H |- *.
    rewrite (accepted_frame (children s) [CShare (theShare props)]); [reflexivity|].
    intros c Hc. specialize (H c Hc).
    change (children empty_scope) with (@nil construct) in H. simpl app in H.
    change (CShare (theShare props) :: ?l) with ([CShare (theShare props)] ++ l) in H.
    split.
    + rewrite hasChild_app in H. now apply orb_false_iff in H.
    + intros X. destruct (accepted_spec [CShare (theShare props)] (planned cwd props files))
        as (rest & _ & Y). rewrite X in Y. destruct Y as (_ & _ & _ & _ & Y). congruence.
  - rewrite (createFileShare_Throw _ _ _ H0 E), (createFileShare_Throw _ _ _ Hs E). reflexivity.
Qed.

End Planner.

(** * The walk over a well-formed file system *)

Section Walk.
Import Path PathFacts.
Variable fs : node.
Variable cwd : string.

Lemma node_at_app n a b :
  node_at n (a ++ b) = match node_at n a with Some m => node_at m b | None => None end.
Proof.
  revert n; induction a as [|x a IH]; intros n; [reflexivity|].
  simpl. destruct n; [reflexivity|]. destruct (find_entry x l); [apply IH|reflexivity].
Qed.

Lemma valid_name_not_special seg :
  valid_name seg = true ->
  (seg =? "")%string = false /\ (seg =? ".")%string = false /\ (seg =? "..")%string = false.
Proof.
  unfold valid_name; intros H.
  repeat (apply andb_true_iff in H; destruct H as [H ?]).
  repeat split; now apply negb_true_iff.
Qed.

(** Along valid names the kernel's resolution is the plain descent. *)
Lemma walk_valid segs : forall trail n,
  Forall (fun s => valid_name s = true) segs ->
  node_at (hd fs trail) segs = Some n ->
  walk fs trail segs = Ok n.
Proof.
  induction segs as [|seg segs IH]; intros trail n Hv H; [simpl in *; congruence|].
  inversion Hv as [|? ? Hseg Hrest]; subst.
  destruct (valid_name_not_special _ Hseg) as (E1 & E2 & E3).
  simpl in *. destruct (hd fs trail); [discriminate|].
  rewrite E1, E2, E3; simpl.
  destruct (find_entry seg l) as [child|]; [|discriminate].
  apply IH; assumption.
Qed.

Lemma abs_path_absolute segs : isAbsolute (abs_path segs) = true.
Proof. reflexivity. Qed.

Lemma walk_skip_empty trail rest :
  isDirectory (hd fs trail) = true -> walk fs trail ("" :: rest) = walk fs trail rest.
Proof. intros H; simpl; destruct (hd fs trail); [discriminate|reflexivity]. Qed.

Lemma lookup_abs_path segs n :
  isDirectory fs = true ->
  Forall (fun s => valid_name s = true) segs ->
  node_at fs segs = Some n ->
  lookup fs cwd (abs_path segs) = Ok n.
Proof.
  intros Hd Hv H. unfold lookup.
  change (abs_path segs =? "")%string with false.
  rewrite abs_path_absolute. cbv iota.
  unfold abs_path.
  change (String "/" (join_sep segs)) with ("" +++ String "/" (join_sep segs)).
  rewrite split_app_sep. simpl split. simpl app.
  rewrite walk_skip_empty by exact Hd.
  destruct segs as [|x segs].
  - simpl join_sep. simpl split. rewrite walk_skip_empty by exact Hd.
    simpl in *. congruence.
  - rewrite split_join_sep; [|discriminate|].
    + now apply walk_valid.
    + eapply Forall_impl; [|exact Hv]. intros a Ha; now apply clean_sep_free, valid_clean.
Qed.


Lemma trail_ok_node_at names trail :
  trail_ok fs names trail -> node_at fs (rev names) = Some (hd fs trail).
Proof.
  revert trail; induction names as [|name names IH]; intros [|child trail] H;
    simpl in H; try contradiction; [reflexivity|].
  destruct H as (H & _ & es & E1 & E2).
  simpl rev. rewrite node_at_app, (IH _ H), E1. simpl. now rewrite E2.
Qed.

Lemma trail_ok_valid names trail :
  trail_ok fs names trail -> Forall (fun s => valid_name s = true) names.
Proof.
  revert trail; induction names as [|name names IH]; intros [|child trail] H;
    simpl in H; try contradiction; constructor; [tauto|].
  eapply IH; apply H.
Qed.

(** Where a path of valid names stops leading anywhere. *)
Lemma walk_valid_fails pre name post : forall trail n,
  Forall (fun s => valid_name s = true) pre -> valid_name name = true ->
  node_at (hd fs trail) pre = Some n ->
  (forall es, n = Dir es -> find_entry name es = None ->
              walk fs trail (pre ++ name :: post) = Throw ENOENT)
  /\ (n = File -> walk fs trail (pre ++ name :: post) = Throw ENOTDIR).
Proof.
  induction pre as [|seg pre IH]; intros trail n Hv Hname H.
  - simpl in H. inversion H as [E]. destruct (valid_name_not_special _ Hname) as (E1 & E2 & E3).
    split.
    + intros es Hn Hfind. simpl. rewrite Hn, E1, E2, E3. simpl. now rewrite Hfind.
    + intros Hn. simpl. now rewrite Hn.
  - inversion Hv as [|? ? Hseg Hrest]; subst.
    destruct (valid_name_not_special _ Hseg) as (E1 & E2 & E3).
    simpl in H |- *. destruct (hd fs trail) as [|l]; [discriminate|].
    rewrite E1, E2, E3; simpl.
    destruct (find_entry seg l) as [child|]; [|discriminate].
    now apply IH.
Qed.

Lemma lookup_abs_path_fails pre name post :
  isDirectory fs = true ->
  Forall (fun s => valid_name s = true) (pre ++ name :: post) ->
  (forall es, node_at fs pre = Some (Dir es) -> find_entry name es = None ->
              lookup fs cwd (abs_path (pre ++ name :: post)) = Throw ENOENT)
  /\ (node_at fs pre = Some File ->
      lookup fs cwd (abs_path (pre ++ name :: post)) = Throw ENOTDIR).
Proof.
  intros Hd Hv.
  assert (L : lookup fs cwd (abs_path (pre ++ name :: post))
              = walk fs [] (pre ++ name :: post)).
  { unfold lookup.
    change (abs_path (pre ++ name :: post) =? "")%string with false.
    rewrite abs_path_absolute. cbv iota.
    unfold abs_path.
    change (String "/" (join_sep (pre ++ name :: post)))
      with ("" +++ String "/" (join_sep (pre ++ name :: post))).
    rewrite split_app_sep. simpl split. simpl app.
    rewrite walk_skip_empty by exact Hd.
    rewrite split_join_sep; [reflexivity|now destruct pre|].
    eapply Forall_impl; [|exact Hv]. intros a Ha; now apply clean_sep_free, valid_clean. }
  rewrite L. apply Forall_app in Hv. destruct Hv as [Hpre Hrest].
  inversion Hrest; subst.
  split.
  - intros es Hn Hf.
    now apply (proj1 (walk_valid_fails pre name post [] (Dir es) Hpre H1 Hn) es).
  - intros Hn. now apply (proj2 (walk_valid_fails pre name post [] File Hpre H1 Hn)).
Qed.

Lemma walk_normalize segs : forall names trail n,
  Forall (fun s => sep_free s = true) segs ->
  trail_ok fs names trail ->
  walk fs trail segs = Ok n ->
  exists trail',
    trail_ok fs (fold_left (normalize_step false) segs names) trail' /\ hd fs trail' = n.
Proof.
  induction segs as [|seg segs IH]; intros names trail n Hs Ht H.
  - simpl in *. exists trail; split; [assumption|congruence].
  - inversion Hs as [|? ? Hseg Hrest]; subst. simpl in H.
    destruct (hd fs trail) as [|es] eqn:Ecur; [discriminate|].
    simpl fold_left. unfold normalize_step at 2.
    destruct ((seg =? "")%string || (seg =? ".")%string) eqn:E1.
    { eapply IH; eassumption. }
    destruct (seg =? "..")%string eqn:E2.
    { destruct names as [|name names], trail as [|child trail];
        simpl in Ht; try contradiction.
      - apply (IH [] []); [assumption|exact I|exact H].
      - destruct Ht as (Ht & Hname & _).
        destruct (valid_name_not_special _ Hname) as (_ & _ & ->).
        apply (IH names trail); [assumption|assumption|exact H]. }
    destruct (find_entry seg es) as [child|] eqn:Ef; [|discriminate].
    eapply IH; [assumption| |eassumption].
    simpl. split; [assumption|]. split; [|now exists es].
    apply orb_false_iff in E1; destruct E1 as [E0 E1].
    unfold valid_name. now rewrite E0, E1, E2, Hseg.
Qed.

(** A successful lookup of an absolute path ends at the node its resolved
    segments lead to. *)
Lemma lookup_node_at p n :
  isAbsolute p = true -> lookup fs cwd p = Ok n ->
  node_at fs (resolve_segs cwd p) = Some n.
Proof.
  intros Ha H. unfold lookup in H. rewrite Ha in H.
  destruct (p =? "")%string; [discriminate|].
  destruct (walk_normalize (split p) [] [] n (split_all_sep_free p) I H) as (trail' & Ht & <-).
  unfold resolve_segs, normalize_segs. rewrite Ha.
  now apply trail_ok_node_at.
Qed.

(** *** [path.join] of a directory and one of its entries *)

Lemma trailingSeparator_entry a item :
  clean item = true -> trailingSeparator (a +++ String "/" item) = false.
Proof.
  intros H. unfold trailingSeparator.
  rewrite chars_app. change (chars (String "/" item)) with ("/"%char :: chars item).
  rewrite rev_app_distr. simpl rev. rewrite <- !app_assoc.
  pose proof (sep_free_Forall _ (clean_sep_free _ H)) as Hf. apply Forall_rev in Hf.
  destruct (rev (chars item)) as [|c l] eqn:E.
  - apply (f_equal (@rev ascii)) in E; rewrite rev_involutive in E; simpl in E.
    apply clean_nonempty in H. destruct item; [congruence|discriminate].
  - inversion Hf; subst. simpl. now apply negb_true_iff.
Qed.

Lemma absolute_nonempty p : isAbsolute p = true -> (p =? "")%string = false.
Proof. destruct p; [discriminate|reflexivity]. Qed.

Lemma join_entry dir item :
  isAbsolute dir = true -> valid_name item = true ->
  join [dir; item] = abs_path (resolve_segs cwd dir ++ [item]).
Proof.
  intros Ha Hi. pose proof (valid_clean _ Hi) as Hc.
  unfold join. simpl filter.
  rewrite (absolute_nonempty _ Ha). simpl negb.
  destruct (valid_name_not_special _ Hi) as (-> & _ & _). simpl negb. cbv iota.
  simpl fold_left.
  change (dir +++ "/" +++ item) with (dir +++ String "/" item).
  unfold normalize.
  assert (Hp : isAbsolute (dir +++ String "/" item) = true)
    by (destruct dir; [discriminate|exact Ha]).
  rewrite (absolute_nonempty _ Hp), Hp, (trailingSeparator_entry _ _ Hc). simpl negb.
  unfold normalizeString. rewrite split_app_sep.
  rewrite (split_sep_free item) by now apply clean_sep_free.
  rewrite normalize_segs_app_valid by (constructor; [assumption|constructor]).
  assert (R : resolve_segs cwd dir = normalize_segs false (split dir))
    by (unfold resolve_segs; now rewrite Ha).
  rewrite <- R.
  assert (N : (join_sep (resolve_segs cwd dir ++ [item]) =? "")%string = false).
  { apply String.eqb_neq, join_sep_nonempty; [now destruct (resolve_segs cwd dir)|].
    apply Forall_app; split; [apply Forall_valid_clean, resolve_segs_valid|].
    constructor; [assumption|constructor]. }
  rewrite N. reflexivity.
Qed.

(** *** Entries of a well-formed directory *)

Lemma find_entry_nodup es name child :
  nodupb (map fst es) = true -> In (name, child) es -> find_entry name es = Some child.
Proof.
  induction es as [|[n0 c0] es IH]; intros Hn Hin; [contradiction|].
  simpl in Hn. apply andb_true_iff in Hn; destruct Hn as [Hx Hn].
  simpl. destruct Hin as [E|Hin].
  - inversion E; subst. now rewrite String.eqb_refl.
  - destruct (String.eqb_spec n0 name) as [->|_]; [|now apply IH].
    apply negb_true_iff in Hx.
    assert (X : existsb (String.eqb name) (map fst es) = true); [|congruence].
    apply existsb_exists. exists name; split; [|apply String.eqb_refl].
    apply in_map_iff. now exists (name, child).
Qed.

Lemma well_formed_entries es :
  well_formed (Dir es) = true ->
  Forall (fun e => valid_name (fst e) = true /\ well_formed (snd e) = true
                   /\ find_entry (fst e) es = Some (snd e)
                   /\ height (snd e) < height (Dir es)) es.
Proof.
  intros H. simpl in H.
  apply andb_true_iff in H; destruct H as [H Hw].
  apply andb_true_iff in H; destruct H as [Hv Hn].
  rewrite forallb_forall in Hv, Hw.
  apply Forall_forall; intros [name child] Hin. simpl.
  repeat split; [now apply (Hv _ Hin)|now apply (Hw _ Hin)|now apply find_entry_nodup|].
  apply Nat.lt_succ_r.
  assert (L : Forall (fun k => k <= list_max (map (fun e => height (snd e)) es))
                     (map (fun e => height (snd e)) es)) by now apply list_max_le.
  rewrite Forall_forall in L. apply L, in_map_iff. now exists (name, child).
Qed.

Lemma map_flat_map {A B C} (f : B -> C) (g : A -> list B) l :
  map f (flat_map g l) = flat_map (fun x => map f (g x)) l.
Proof. induction l; simpl; [reflexivity|]. now rewrite map_app, IHl. Qed.

(** *** The result of [getAllFiles] *)

Lemma getAllFiles_rec_spec : forall fuel dir es,
  isDirectory fs = true ->
  isAbsolute dir = true ->
  lookup fs cwd dir = Ok (Dir es) ->
  well_formed (Dir es) = true ->
  height (Dir es) <= fuel ->
  getAllFiles_rec fs cwd fuel dir
  = Ok (map (fun rel => abs_path (resolve_segs cwd dir ++ rel)) (files_of (Dir es))).
Proof.
  induction fuel as [|fuel IH]; intros dir es Hd Ha Hl Hw Hh; [simpl in Hh; lia|].
  simpl getAllFiles_rec. unfold readdirSync. rewrite Hl. simpl bindR.
  pose proof (lookup_node_at _ _ Ha Hl) as Hat.
  pose proof (resolve_segs_valid cwd dir) as Hrs.
  set (rs := resolve_segs cwd dir) in *.
  set (step := fun (acc : result (list string)) (item : string) => _).
  assert (G : forall sub acc,
    Forall (fun e => valid_name (fst e) = true /\ well_formed (snd e) = true
                     /\ find_entry (fst e) es = Some (snd e)
                     /\ height (snd e) < height (Dir es)) sub ->
    fold_left step (map fst sub) (Ok acc)
    = Ok (acc ++ flat_map
                   (fun e => map (fun rel => abs_path (rs ++ rel))
                                 (match snd e with
                                  | File => [[fst e]]
                                  | Dir _ => map (cons (fst e)) (files_of (snd e))
                                  end)) sub)).
  { induction sub as [|[name child] sub IHsub]; intros acc Hsub.
    - simpl. now rewrite app_nil_r.
    - inversion Hsub as [|? ? (Hv & Hwc & Hf & Hhc) Hsub']; subst. simpl in Hv, Hwc, Hf, Hhc.
      simpl map. simpl fold_left.
      rewrite (join_entry _ _ Ha Hv). fold rs.
      assert (Hv' : Forall (fun s => valid_name s = true) (rs ++ [name]))
        by (apply Forall_app; split; [assumption|constructor; [assumption|constructor]]).
      assert (Hat' : node_at fs (rs ++ [name]) = Some child)
        by (rewrite node_at_app, Hat; simpl; now rewrite Hf).
      pose proof (lookup_abs_path _ _ Hd Hv' Hat') as Hl'.
      unfold statSync. rewrite Hl'. simpl bindR.
      destruct child as [|es'].
      + simpl isDirectory. cbv iota. rewrite IHsub by assumption.
        simpl. now rewrite <- app_assoc.
      + simpl isDirectory. cbv iota.
        rewrite (IH _ es' Hd (abs_path_absolute _) Hl' Hwc) by (simpl in *; lia).
        simpl bindR. rewrite IHsub by assumption.
        rewrite (resolve_segs_abs_path _ _ Hv').
        simpl flat_map. rewrite <- app_assoc. do 2 f_equal. f_equal.
        rewrite map_map. apply map_ext. intros rel. now rewrite <- app_assoc. }
  rewrite (G es [] (well_formed_entries _ Hw)). simpl app.
  simpl files_of. now rewrite map_flat_map.
Qed.

Lemma find_entry_In name es child :
  find_entry name es = Some child -> In (name, child) es.
Proof.
  induction es as [|[n0 c0] es IH]; [discriminate|]. simpl.
  destruct (String.eqb_spec n0 name) as [->|_]; [|auto].
  intros E; inversion E; now left.
Qed.

Lemma node_at_sub segs : forall n m,
  node_at n segs = Some m ->
  height m <= height n /\ (well_formed n = true -> well_formed m = true).
Proof.
  induction segs as [|seg segs IH]; intros n m H.
  - simpl in H; inversion H; subst; split; auto.
  - simpl in H. destruct n as [|es]; [discriminate|].
    destruct (find_entry seg es) as [child|] eqn:E; [|discriminate].
    apply IH in H. destruct H as [Hh Hw]. apply find_entry_In in E. split.
    + assert (L : Forall (fun k => k <= list_max (map (fun e => height (snd e)) es))
                         (map (fun e => height (snd e)) es)) by now apply list_max_le.
      rewrite Forall_forall in L.
      assert (height child <= list_max (map (fun e => height (snd e)) es))
        by (apply L, in_map_iff; now exists (seg, child)).
      simpl. lia.
    + intros W. apply Hw. simpl in W.
      apply andb_true_iff in W; destruct W as [_ W].
      rewrite forallb_forall in W. apply (W _ E).
Qed.

(** On a well-formed file system the walk from an absolute directory
    returns, and returns its files in listing order. *)
Lemma getAllFiles_spec dir es :
  fs_ok fs = true ->
  isAbsolute dir = true ->
  lookup fs cwd dir = Ok (Dir es) ->
  getAllFiles fs cwd dir
  = Ok (map (fun rel => abs_path (resolve_segs cwd dir ++ rel)) (files_of (Dir es))).
Proof.
  intros Hok Ha Hl. apply andb_true_iff in Hok; destruct Hok as [Hd Hw].
  destruct (node_at_sub _ _ _ (lookup_node_at _ _ Ha Hl)) as [Hh Hw'].
  unfold getAllFiles. apply getAllFiles_rec_spec; auto.
Qed.

(** The names leading to a file of a well-formed tree are valid, and there
    is at least one. *)
Lemma files_of_valid : forall k n,
  height n <= k -> well_formed n = true ->
  Forall (fun rel => rel <> [] /\ Forall (fun s => valid_name s = true) rel) (files_of n).
Proof.
  induction k as [|k IH]; intros n Hh Hw.
  - destruct n; [constructor|simpl in Hh; lia].
  - destruct n as [|es]; [constructor|].
    pose proof (well_formed_entries _ Hw) as He.
    simpl files_of. apply Forall_flat_map.
    eapply Forall_impl; [|exact He].
    intros [name child] (Hv & Hwc & _ & Hhc). simpl in *.
    destruct child as [|es'].
    + repeat constructor; [discriminate|assumption].
    + apply Forall_map. eapply Forall_impl; [|apply (IH (Dir es')); [simpl in *; lia|assumption]].
      intros rel [_ Hrel]. split; [discriminate|now constructor].
Qed.

Lemma fold_throw {A B} (f : result A -> B -> result A) l e :
  (forall b e', f (Throw e') b = Throw e') -> fold_left f l (Throw e) = Throw e.
Proof. intros H; induction l as [|b l IH]; simpl; [reflexivity|now rewrite H]. Qed.

(** Whatever the file system, every path the walk returns is a path at which
    [statSync] found something that is not a directory. *)
Lemma getAllFiles_rec_regular : forall fuel dir files,
  getAllFiles_rec fs cwd fuel dir = Ok files ->
  Forall (fun f => lookup fs cwd f = Ok File) files.
Proof.
  induction fuel as [|fuel IH]; intros dir files H; [discriminate|].
  simpl in H. destruct (readdirSync fs cwd dir) as [items|e]; [|discriminate].
  simpl bindR in H.
  set (step := fun (acc : result (list string)) (item : string) => _) in H.
  assert (G : forall items acc files,
             Forall (fun f => lookup fs cwd f = Ok File) acc ->
             fold_left step items (Ok acc) = Ok files ->
             Forall (fun f => lookup fs cwd f = Ok File) files).
  { clear H items files.
    induction items as [|item items IHi]; intros acc files Hacc H.
    - simpl in H. inversion H; now subst.
    - simpl in H. unfold statSync in H.
      destruct (lookup fs cwd (join [dir; item])) as [st|e] eqn:El.
      + simpl in H. destruct st as [|es]; simpl in H.
        * eapply IHi; [|exact H]. apply Forall_app; split; [assumption|].
          constructor; [assumption|constructor].
        * destruct (getAllFiles_rec fs cwd fuel (join [dir; item])) as [sub|e] eqn:Es.
          -- simpl in H. eapply IHi; [|exact H].
             apply Forall_app; split; [assumption|now apply (IH _ _ Es)].
          -- simpl in H. rewrite fold_throw in H; [discriminate|reflexivity].
      + simpl in H. rewrite fold_throw in H; [discriminate|reflexivity]. }
  apply (G items [] files); [constructor|exact H].
Qed.

Lemma walk_error trail segs e :
  walk fs trail segs = Throw e -> e = ENOENT \/ e = ENOTDIR.
Proof.
  revert trail; induction segs as [|seg segs IH]; intros trail H; [discriminate|].
  simpl in H. destruct (hd fs trail) as [|es]; [inversion H; auto|].
  destruct ((seg =? "")%string || (seg =? ".")%string); [now apply IH in H|].
  destruct (seg =? "..")%string; [now apply IH in H|].
  destruct (find_entry seg es); [now apply IH in H|inversion H; auto].
Qed.

Lemma lookup_error p e : lookup fs cwd p = Throw e -> e = ENOENT \/ e = ENOTDIR.
Proof.
  unfold lookup. destruct (p =? "")%string; [intros H; inversion H; auto|]. apply walk_error.
Qed.

(** The walk throws what the two [fs] calls throw, nothing else. *)
Lemma getAllFiles_rec_error : forall fuel dir e,
  getAllFiles_rec fs cwd fuel dir = Throw e ->
  e = ENOENT \/ e = ENOTDIR \/ e = OutOfFuel.
Proof.
  induction fuel as [|fuel IH]; intros dir e H; [inversion H; auto|].
  simpl in H. unfold readdirSync in H.
  destruct (lookup fs cwd dir) as [[|es]|e0] eqn:El; simpl in H.
  - inversion H; auto.
  - set (step := fun (acc : result (list string)) (item : string) => _) in H.
    assert (G : forall items acc,
               fold_left step items (Ok acc) = Throw e ->
               e = ENOENT \/ e = ENOTDIR \/ e = OutOfFuel).
    { clear H. induction items as [|item items IHi]; intros acc H; [discriminate|].
      simpl in H. unfold statSync in H.
      destruct (lookup fs cwd (join [dir; item])) as [st|e1] eqn:E1.
      - simpl in H. destruct st as [|es']; simpl in H.
        + now apply IHi in H.
        + destruct (getAllFiles_rec fs cwd fuel (join [dir; item])) as [sub|e2] eqn:Es.
          * simpl in H. now apply IHi in H.
          * simpl in H. rewrite fold_throw in H by reflexivity. inversion H; subst.
            now apply IH in Es.
      - simpl in H. rewrite fold_throw in H by reflexivity. inversion H; subst.
        apply lookup_error in E1. tauto. }
    now apply G in H.
  - inversion H; subst. apply lookup_error in El. tauto.
Qed.

(** The recursion bound is never what stops the walk of a well-formed file
    system from an absolute directory. *)
Lemma getAllFiles_within_bound dir :
  fs_ok fs = true -> isAbsolute dir = true ->
  getAllFiles fs cwd dir <> Throw OutOfFuel.
Proof.
  intros Hok Ha. destruct (lookup fs cwd dir) as [[|es]|e] eqn:El.
  - unfold getAllFiles; simpl; unfold readdirSync; rewrite El; discriminate.
  - rewrite (getAllFiles_spec _ _ Hok Ha El); discriminate.
  - unfold getAllFiles; simpl; unfold readdirSync; rewrite El; simpl.
    unfold lookup in El. destruct (dir =? "")%string; [inversion El; discriminate|].
    apply walk_error in El. destruct El; subst; discriminate.
Qed.

End Walk.

(** * Properties of the plan *)


Example nginx_walk :
  getAllFiles nginx_fs "/" "/srv/nginx"
  = Ok ["/srv/nginx/nginx.conf"; "/srv/nginx/conf.d/default.conf"].
Proof. reflexivity. Qed.

Example nginx_directories :
  map dir_name (plan_directories (planOf nginx_fs "/" (nginx_props "/srv/nginx") empty_scope))
  = ["conf.d"].
Proof. reflexivity. Qed.

Example nginx_files :
  map (fun f => (file_name f, file_path f))
      (plan_files (planOf nginx_fs "/" (nginx_props "/srv/nginx") empty_scope))
  = [("nginx.conf", None); ("default.conf", Some "conf.d")].
Proof. reflexivity. Qed.

(** A root given relative to the working directory [/w], holding
    [a/x.txt]: the directory ["a"] of the file equals the root string and
    [getDirectories] leaves it out. *)
Example relative_root :
  let fs := Dir [("w", Dir [("a", Dir [("a", Dir [("x.txt", File)])])])] in
  getAllFiles fs "/w" "a" = Ok ["a/a/x.txt"]
  /\ getDirectories "/w" ["a/a/x.txt"] "a" = []
  /\ map file_path (plan_files (planOf fs "/w" (nginx_props "a") empty_scope)) = [Some "a"].
Proof. repeat split. Qed.

(** The file [a/b/c.txt] of the root is emitted under the name [c.txt] in
    the directory ["a/b"], the one directory of the plan. *)
Example deep_file :
  let fs := Dir [("r", Dir [("a", Dir [("b", Dir [("c.txt", File)])])])] in
  let P := planOf fs "/" (nginx_props "/r") empty_scope in
  map dir_name (plan_directories P) = ["a/b"]
  /\ map (fun f => (file_name f, file_path f)) (plan_files P) = [("c.txt", Some "a/b")].
Proof. repeat split. Qed.

Section Claims.
Import Path PathFacts.

Lemma plan_files_inv fs cwd props s f :
  In f (plan_files (planOf fs cwd props s)) ->
  exists files,
    getAllFiles fs cwd (localMountDir props) = Ok files
    /\ let dirs := map (theDirectory props)
                       (getDirectories cwd files (localMountDir props)) in
       let c := categorizeFiles files (localMountDir props) in
       plan_directories (planOf fs cwd props s) = dirs
       /\ ((exists src, In src (rootFiles c) /\ f = rootFile props dirs src)
           \/ (exists src, In src (subdirFiles c) /\ f = nestedFile cwd props dirs src)).
Proof.
  intros H. destruct (plan_cases fs cwd props s) as [[_ Hf]|(files & E & X)].
  { rewrite Hf in H. contradiction. }
  exists files; split; [exact E|]. intros dirs c. fold dirs c in X.
  destruct X as [(d1 & d2 & _ & _ & Hf)|(f1 & f2 & Ef & Hd & Hf)].
  { rewrite Hf in H. contradiction. }
  split; [exact Hd|]. rewrite Hf in H.
  assert (H' : In f (f1 ++ f2)) by (apply in_or_app; now left).
  rewrite <- Ef in H'. apply in_app_or in H'. destruct H' as [H'|H'];
    apply in_map_iff in H'; destruct H' as (src & <- & Hs); [left|right]; now exists src.
Qed.

(** The directories of a plan come from the list [getDirectories] returns. *)
Lemma plan_directories_inv fs cwd props s d :
  In d (plan_directories (planOf fs cwd props s)) ->
  exists files,
    getAllFiles fs cwd (localMountDir props) = Ok files
    /\ In (dir_name d) (getDirectories cwd files (localMountDir props))
    /\ d = theDirectory props (dir_name d).
Proof.
  intros H. destruct (plan_cases fs cwd props s) as [[Hd _]|(files & E & X)].
  { rewrite Hd in H. contradiction. }
  exists files; split; [exact E|]. cbv zeta in X.
  assert (H' : In d (map (theDirectory props)
                         (getDirectories cwd files (localMountDir props)))).
  { destruct X as [(d1 & d2 & Ed & Hd & _)|(f1 & f2 & _ & Hd & _)].
    - rewrite Ed. apply in_or_app; left. now rewrite <- Hd.
    - now rewrite <- Hd. }
  apply in_map_iff in H'. destruct H' as (dn & <- & Hdn). now split.
Qed.

Lemma categorizeFiles_In files root f :
  (In f (rootFiles (categorizeFiles files root)) <-> In f files /\ dirname f = root)
  /\ (In f (subdirFiles (categorizeFiles files root)) <-> In f files /\ dirname f <> root).
Proof.
  destruct (categorizeFiles_eq files root) as [-> ->].
  rewrite !filter_In, negb_true_iff, String.eqb_eq, String.eqb_neq. tauto.
Qed.

(** C2: every file the plan emits, root-level or nested, depends on the
    whole list of directories of that plan. *)
Theorem C2_files_depend_on_all_directories fs cwd props s f :
  In f (plan_files (planOf fs cwd props s)) ->
  file_dependsOn f = plan_directories (planOf fs cwd props s).
Proof.
  intros H. destruct (plan_files_inv _ _ _ _ _ H) as (files & _ & Hd & [(src & _ & ->)|(src & _ & ->)]);
    now rewrite Hd.
Qed.

Lemma C2_witness :
  let P := planOf nginx_fs "/" (nginx_props "/srv/nginx") empty_scope in
  exists f, In f (plan_files P) /\ file_name f = "default.conf"
            /\ map dir_name (file_dependsOn f) = ["conf.d"].
Proof.
  intros P.
  assert (H : In (nth 1 (plan_files P) (rootFile (nginx_props "") [] "")) (plan_files P))
    by (vm_compute; tauto).
  eexists; split; [exact H|].
  rewrite (C2_files_depend_on_all_directories _ _ _ _ _ H).
  split; reflexivity.
Defined.

(** C5: the directories [getDirectories] returns are exactly the values
    dirname(relative(root, file)) of the input files other than the empty
    string, ["."] and the root path; each appears once, and the list is in
    strictly ascending lexicographic order. *)
Theorem C5_getDirectories_spec cwd files root :
  (forall d, In d (getDirectories cwd files root)
             <-> exists f, In f files /\ d = dirname (relative cwd root f)
                           /\ d <> "" /\ d <> "." /\ d <> root)
  /\ NoDup (getDirectories cwd files root)
  /\ StronglySorted str_lt (getDirectories cwd files root).
Proof.
  split; [|split; [apply getDirectories_NoDup|apply getDirectories_sorted]].
  intros d. rewrite getDirectories_In. unfold kept, dir_of.
  split; intros (f & Hf & -> & K); exists f; (split; [assumption|split; [reflexivity|]]).
  - apply andb_true_iff in K; destruct K as [K K3].
    apply andb_true_iff in K; destruct K as [K1 K2].
    rewrite negb_true_iff, String.eqb_neq in K1, K2, K3. tauto.
  - destruct K as (K1 & K3 & K2).
    apply String.eqb_neq in K1, K2, K3. now rewrite K1, K2, K3.
Qed.

(** C6: a file is classified root-level exactly when its dirname is the
    root path, and a root-level file is to yield a file without remote
    directory.  For the mount directory holding [a/b/x], [a_b/y] and [z]
    the file [z] is root-level, but the call has thrown before it creates
    any file: the directories [a/b] and [a_b] are both given the id
    [dir_nginx_a_b], and the second [new StorageShareDirectory] throws. *)
Theorem C6_root_level_file_not_created :
  let fs := app_with twin_directories in
  let props := mount_props "nginx" in
  let files := ["/app/mountfiles/nginx/a/b/x"; "/app/mountfiles/nginx/a_b/y";
                "/app/mountfiles/nginx/z"] in
  fs_ok fs = true
  /\ getAllFiles fs "/" (localMountDir props) = Ok files
  /\ dirname "/app/mountfiles/nginx/z" = localMountDir props
  /\ rootFiles (categorizeFiles files (localMountDir props)) = ["/app/mountfiles/nginx/z"]
  /\ map dir_id (directoriesOf (planned "/" props files)) = ["dir_nginx_a_b"; "dir_nginx_a_b"]
  /\ fst (createFileShare fs "/" props empty_scope)
     = Throw (DuplicateConstruct "dir_nginx_a_b")
  /\ map dir_name (plan_directories (planOf fs "/" props empty_scope)) = ["a/b"]
  /\ plan_files (planOf fs "/" props empty_scope) = [].
Proof. repeat split. Qed.

Lemma getAllFiles_Throw fs cwd dir e :
  (lookup fs cwd dir = Throw e -> getAllFiles fs cwd dir = Throw e)
  /\ (lookup fs cwd dir = Ok File -> getAllFiles fs cwd dir = Throw ENOTDIR).
Proof.
  unfold getAllFiles; simpl; unfold readdirSync; split; intros ->; reflexivity.
Qed.

(** C7, as stated, fails: the mount directory [/app/mountfiles/nginx] does
    not exist where [mountfiles] is a regular file, and the call throws
    [ENOTDIR] (NotADirectoryError), not [ENOENT] (NotFoundError). *)
Lemma C7_counterexample :
  let fs := app_without_mounts in
  let props := mount_props "nginx" in
  localMountDir props = "/app/mountfiles/nginx"
  /\ node_at fs ["app"; "mountfiles"; "nginx"] = None
  /\ lookup fs "/" (localMountDir props) = Throw ENOTDIR
  /\ fst (createFileShare fs "/" props empty_scope) = Throw ENOTDIR
  /\ fst (createFileShare fs "/" props empty_scope) <> Throw ENOENT.
Proof. repeat split. discriminate. Qed.

(** C7, amended: in a scope that has no child named after the share yet,
    a root whose path does not lead to a node makes the call throw the
    error of the path resolution - [ENOENT] (NotFoundError) when a name of
    the path is missing from the directory that should list it, [ENOTDIR]
    (NotADirectoryError) when the path runs through a regular file - and a
    root that is a regular file makes it throw [ENOTDIR]; either way the
    plan holds no directory and no file. *)
Theorem C7_failing_root fs cwd props s :
  hasChild (sanitizeId ("share_" +++ shareName props)) (children s) = false ->
  (forall e, lookup fs cwd (localMountDir props) = Throw e ->
     (e = ENOENT \/ e = ENOTDIR)
     /\ fst (createFileShare fs cwd props s) = Throw e
     /\ plan_directories (planOf fs cwd props s) = []
     /\ plan_files (planOf fs cwd props s) = [])
  /\ (lookup fs cwd (localMountDir props) = Ok File ->
      fst (createFileShare fs cwd props s) = Throw ENOTDIR
      /\ plan_directories (planOf fs cwd props s) = []
      /\ plan_files (planOf fs cwd props s) = [])
  /\ (forall pre name post,
        isDirectory fs = true ->
        Forall (fun seg => valid_name seg = true) (pre ++ name :: post) ->
        localMountDir props = abs_path (pre ++ name :: post) ->
        (forall es, node_at fs pre = Some (Dir es) -> find_entry name es = None ->
                    lookup fs cwd (localMountDir props) = Throw ENOENT)
        /\ (node_at fs pre = Some File ->
            lookup fs cwd (localMountDir props) = Throw ENOTDIR)).
Proof.
  intros Hs. split; [|split].
  - intros e H. split.
    + unfold lookup in H. destruct (localMountDir props =? "")%string.
      * inversion H; auto.
      * now apply walk_error in H.
    + apply (getAllFiles_Throw fs cwd _ e) in H.
      rewrite (createFileShare_Throw _ _ _ s _ Hs H). split; [reflexivity|].
      apply (plan_Throw _ _ _ s _ H).
  - intros H. apply (getAllFiles_Throw fs cwd _ ENOENT) in H.
    rewrite (createFileShare_Throw _ _ _ s _ Hs H). split; [reflexivity|].
    apply (plan_Throw _ _ _ s _ H).
  - intros pre name post Hd Hv ->.
    destruct (lookup_abs_path_fails fs cwd pre name post Hd Hv) as [H1 H2]. now split.
Qed.

Lemma C7_witness :
  fst (createFileShare nginx_fs "/" (nginx_props "/srv/missing") empty_scope) = Throw ENOENT
  /\ fst (createFileShare nginx_fs "/" (nginx_props "/srv/nginx/nginx.conf") empty_scope)
     = Throw ENOTDIR
  /\ lookup nginx_fs "/" "/srv/nginx/nginx.conf/x" = Throw ENOTDIR.
Proof.
  split; [|split].
  - apply (C7_failing_root nginx_fs "/" (nginx_props "/srv/missing") empty_scope eq_refl).
    reflexivity.
  - apply (C7_failing_root nginx_fs "/" (nginx_props "/srv/nginx/nginx.conf")
             empty_scope eq_refl).
    reflexivity.
  - apply (proj2 (proj2 (C7_failing_root nginx_fs "/" (nginx_props "/srv/nginx/nginx.conf/x")
                           empty_scope eq_refl))
             ["srv"; "nginx"; "nginx.conf"] "x" []); try reflexivity.
    repeat constructor.
Defined.

(** C8: every directory of a plan hosts a file: the walk has enumerated a
    regular file whose dirname(relative(root, file)) is that directory. *)
Theorem C8_directories_host_a_file fs cwd props s d :
  In d (plan_directories (planOf fs cwd props s)) ->
  exists files f,
    getAllFiles fs cwd (localMountDir props) = Ok files
    /\ In f files
    /\ lookup fs cwd f = Ok File
    /\ dirname (relative cwd (localMountDir props) f) = dir_name d.
Proof.
  intros H. destruct (plan_directories_inv _ _ _ _ _ H) as (files & E & Hdn & _).
  apply getDirectories_In in Hdn. destruct Hdn as (f & Hf & Ed & _).
  pose proof (getAllFiles_rec_regular _ _ _ _ _ E) as Hreg.
  rewrite Forall_forall in Hreg.
  exists files, f. repeat split; auto.
Qed.

Lemma C8_witness :
  let P := planOf nginx_fs "/" (nginx_props "/srv/nginx") empty_scope in
  exists d files f,
    In d (plan_directories P) /\ dir_name d = "conf.d"
    /\ getAllFiles nginx_fs "/" "/srv/nginx" = Ok files /\ In f files
    /\ lookup nginx_fs "/" f = Ok File
    /\ dirname (relative "/" "/srv/nginx" f) = "conf.d".
Proof.
  intros P.
  assert (H : In (theDirectory (nginx_props "/srv/nginx") "conf.d") (plan_directories P))
    by (left; reflexivity).
  destruct (C8_directories_host_a_file _ _ _ _ _ H) as (files & f & H1 & H2 & H3 & H4).
  exists (theDirectory (nginx_props "/srv/nginx") "conf.d"), files, f.
  repeat split; assumption.
Defined.

(** *** What [dirname] returns on the result of [relative] *)

Lemma dirname_relative_cases cwd from to :
  dirname (relative cwd from to) = "."
  \/ exists pre, pre <> [] /\ Forall (fun s => clean s = true) pre
                 /\ dirname (relative cwd from to) = join_sep pre.
Proof.
  destruct (relative_clean cwd from to) as (segs & -> & H). now apply dirname_clean.
Qed.

Lemma dirname_relative_not_dot_slash cwd from to : dirname (relative cwd from to) <> "./".
Proof.
  destruct (dirname_relative_cases cwd from to) as [->|(pre & Hne & Hc & ->)]; [discriminate|].
  intros E. apply (f_equal split) in E.
  rewrite split_join_sep in E;
    [|assumption|eapply Forall_impl; [|exact Hc]; intros a; apply clean_sep_free].
  subst pre. inversion Hc as [|? ? _ Hc']; subst. inversion Hc'; subst. discriminate.
Qed.

Lemma dirname_relative_not_absolute cwd from to :
  isAbsolute (dirname (relative cwd from to)) = false.
Proof.
  destruct (dirname_relative_cases cwd from to) as [->|(pre & Hne & Hc & ->)]; [reflexivity|].
  destruct (join_sep_head pre Hne Hc) as (c & r & -> & Hs). exact Hs.
Qed.

Lemma forEach_ext {A} (f g : A -> M unit) l s :
  (forall x s', f x s' = g x s') -> forEach l f s = forEach l g s.
Proof.
  intros H. revert s; induction l as [|x l IH]; intros s; [reflexivity|].
  simpl. unfold bind. rewrite H. destruct (g x s) as [[[]|e] s']; [apply IH|reflexivity].
Qed.

Lemma bind_ext {A B} (m : M A) (k1 k2 : A -> M B) s :
  (forall a s', k1 a s' = k2 a s') -> bind m k1 s = bind m k2 s.
Proof. intros H. unfold bind. destruct (m s) as [[a|e] s']; [apply H|reflexivity]. Qed.

Lemma bind_congr {A B} (m1 m2 : M A) (k : A -> M B) s :
  m1 s = m2 s -> bind m1 k s = bind m2 k s.
Proof. intros H. unfold bind. now rewrite H. Qed.

(** C9: the remote path of a nested file is dirname(relative(root, file)):
    [dirname] never returns ["./"] on a result of [relative], so the
    conditional never takes its first branch, and [createFileShare] is the
    same function as its variant without the conditional. *)
Theorem C9_conditional_is_unreachable :
  (forall cwd from to, dirname (relative cwd from to) <> "./")
  /\ (forall fs cwd props s,
        createFileShare fs cwd props s = createFileShare_direct fs cwd props s)
  /\ (forall fs cwd props s rf p,
        In rf (plan_files (planOf fs cwd props s)) ->
        file_path rf = Some p ->
        p = dirname (relative cwd (localMountDir props) (file_source rf))).
Proof.
  split; [apply dirname_relative_not_dot_slash|]. split.
  - intros fs cwd props s. unfold createFileShare, createFileShare_direct.
    repeat (apply bind_ext; intros).
    apply bind_congr. apply forEach_ext. intros file s0.
    destruct (String.eqb_spec (dirname (relative cwd (localMountDir props) file)) "./") as [E|_];
      [now apply dirname_relative_not_dot_slash in E|reflexivity].
  - intros fs cwd props s rf p Hin Hp.
    destruct (plan_files_inv _ _ _ _ _ Hin)
      as (files & _ & _ & [(src & _ & ->)|(src & _ & ->)]); [discriminate|].
    simpl in *.
    destruct (String.eqb_spec (dirname (relative cwd (localMountDir props) src)) "./") as [E|_];
      [now apply dirname_relative_not_dot_slash in E|congruence].
Qed.

Lemma C9_witness :
  let P := planOf nginx_fs "/" (nginx_props "/srv/nginx") empty_scope in
  exists rf, In rf (plan_files P) /\ file_path rf = Some "conf.d"
             /\ "conf.d" = dirname (relative "/" "/srv/nginx" (file_source rf)).
Proof.
  intros P.
  assert (H : In (nth 1 (plan_files P) (rootFile (nginx_props "") [] "")) (plan_files P))
    by (vm_compute; tauto).
  eexists; split; [exact H|]. split; [reflexivity|].
  apply (proj2 (proj2 C9_conditional_is_unreachable) _ _ _ _ _ _ H). reflexivity.
Defined.

Lemma getDirectories_two_tests_eq cwd files mountDir :
  getDirectories_two_tests cwd files mountDir
  = sort (dedup (filter (fun d => negb (d =? "")%string && negb (d =? ".")%string)
                        (map (dir_of cwd mountDir) files))).
Proof.
  unfold getDirectories_two_tests, dedup. f_equal.
  generalize (@nil string) as acc.
  induction files as [|f files IH]; intros acc; [reflexivity|].
  simpl. fold (dir_of cwd mountDir f).
  destruct (negb (dir_of cwd mountDir f =? "")%string
            && negb (dir_of cwd mountDir f =? ".")%string); simpl; apply IH.
Qed.

(** C10: for an absolute root the comparison of the computed directory with
    the root never excludes anything, whatever the files: [getDirectories]
    returns what its variant with the two other tests returns. *)
Theorem C10_root_test_is_redundant cwd files root :
  isAbsolute root = true ->
  (forall f, (dirname (relative cwd root f) =? root)%string = false)
  /\ getDirectories cwd files root = getDirectories_two_tests cwd files root.
Proof.
  intros Ha.
  assert (N : forall f, (dirname (relative cwd root f) =? root)%string = false).
  { intros f. apply String.eqb_neq. intros E.
    pose proof (dirname_relative_not_absolute cwd root f) as H. rewrite E in H. congruence. }
  split; [exact N|].
  rewrite getDirectories_eq, getDirectories_two_tests_eq. do 2 f_equal.
  apply filter_ext_in. intros d Hd. apply in_map_iff in Hd. destruct Hd as (f & <- & _).
  unfold kept, dir_of. rewrite N. simpl. now rewrite andb_true_r.
Qed.

Lemma C10_witness :
  getDirectories "/" ["/srv/nginx/nginx.conf"; "/srv/nginx/conf.d/default.conf"] "/srv/nginx"
  = getDirectories_two_tests "/"
      ["/srv/nginx/nginx.conf"; "/srv/nginx/conf.d/default.conf"] "/srv/nginx".
Proof.
  apply (C10_root_test_is_redundant "/" _ "/srv/nginx"). reflexivity.
Defined.

(** *** Classification has no failure *)


(** What the second loop of [createFileShare] would make of that file: a
    file with the remote directory ["../../etc"]. *)
Example outside_file_emission :
  map (fun f => (file_source f, file_path f))
      (filesOf (planned "/" (nginx_props "/srv/nginx") ["/etc/passwd"]))
  = [("/etc/passwd", Some "../../etc")].
Proof. reflexivity. Qed.



(** *** The files of a walk over a well-formed tree *)

Lemma getAllFiles_Ok_inv fs cwd dir files :
  getAllFiles fs cwd dir = Ok files -> exists es, lookup fs cwd dir = Ok (Dir es).
Proof.
  unfold getAllFiles; simpl; unfold readdirSync.
  destruct (lookup fs cwd dir) as [[|es]|e]; simpl; try discriminate. intros _; now exists es.
Qed.

Lemma walk_shape fs cwd root files :
  fs_ok fs = true -> isAbsolute root = true ->
  getAllFiles fs cwd root = Ok files ->
  exists es,
    lookup fs cwd root = Ok (Dir es)
    /\ files = map (fun rel => abs_path (resolve_segs cwd root ++ rel)) (files_of (Dir es))
    /\ Forall (fun rel => rel <> [] /\ Forall (fun s => valid_name s = true) rel)
              (files_of (Dir es)).
Proof.
  intros Hok Ha E. destruct (getAllFiles_Ok_inv _ _ _ _ E) as (es & Hl).
  exists es. split; [assumption|]. split.
  - rewrite (getAllFiles_spec _ _ _ _ Hok Ha Hl) in E. congruence.
  - apply andb_true_iff in Hok; destruct Hok as [_ Hw].
    destruct (node_at_sub _ _ _ (lookup_node_at _ _ _ _ Ha Hl)) as [_ Hw'].
    eapply files_of_valid; [apply le_n|auto].
Qed.

Lemma dir_of_below cwd root rel :
  rel <> [] -> Forall (fun s => valid_name s = true) rel ->
  dir_of cwd root (abs_path (resolve_segs cwd root ++ rel))
  = match removelast rel with [] => "." | _ => join_sep (removelast rel) end.
Proof.
  intros Hne Hv. unfold dir_of. rewrite relative_below by assumption.
  rewrite (app_removelast_last "" Hne) at 1.
  rewrite dirname_join_sep.
  - now destruct (removelast rel).
  - rewrite <- (app_removelast_last "" Hne). now apply Forall_valid_clean.
Qed.

Lemma dirname_below rs rel :
  rel <> [] -> Forall (fun s => valid_name s = true) (rs ++ rel) ->
  dirname (abs_path (rs ++ rel)) = abs_path (rs ++ removelast rel).
Proof.
  intros Hne Hv. rewrite (app_removelast_last "" Hne) in Hv |- * at 1.
  rewrite app_assoc in Hv |- *.
  rewrite dirname_abs_path by now apply Forall_valid_clean.
  reflexivity.
Qed.

Lemma removelast_valid rel :
  Forall (fun s => valid_name s = true) rel ->
  Forall (fun s => valid_name s = true) (removelast rel).
Proof.
  intros H. destruct rel as [|x rel]; [constructor|].
  rewrite (app_removelast_last "" (l := x :: rel)) in H by discriminate.
  now apply Forall_app in H.
Qed.

Lemma kept_below root pre :
  isAbsolute root = true -> pre <> [] -> Forall (fun s => valid_name s = true) pre ->
  kept root (join_sep pre) = true.
Proof.
  intros Ha Hne Hv. pose proof (Forall_valid_clean _ Hv) as Hc. unfold kept.
  assert (E1 : (join_sep pre =? "")%string = false)
    by (apply String.eqb_neq; now apply join_sep_nonempty).
  assert (E2 : (join_sep pre =? root)%string = false).
  { apply String.eqb_neq. intros E.
    destruct (join_sep_head pre Hne Hc) as (c & r & E' & Hs).
    rewrite E in E'. rewrite E' in Ha. simpl in Ha. congruence. }
  assert (E3 : (join_sep pre =? ".")%string = false).
  { apply String.eqb_neq. intros E.
    assert (X : pre = ["."]).
    { apply join_sep_inj; [assumption|repeat constructor|exact E]. }
    subst pre. inversion Hv; subst. discriminate. }
  now rewrite E1, E2, E3.
Qed.

Lemma abs_path_inj a b :
  Forall (fun s => clean s = true) a -> Forall (fun s => clean s = true) b ->
  abs_path a = abs_path b -> a = b.
Proof.
  intros Ha Hb E. unfold abs_path in E. inversion E. now apply join_sep_inj.
Qed.

Lemma resolved_root cwd root :
  resolve cwd root = root ->
  isAbsolute root = true /\ root = abs_path (resolve_segs cwd root).
Proof. intros E. split; [now rewrite <- E|]. symmetry; exact E. Qed.

Lemma nested_directory_listed fs cwd root files f :
  fs_ok fs = true -> resolve cwd root = root ->
  getAllFiles fs cwd root = Ok files ->
  In f files -> dirname f <> root ->
  In (dirname (relative cwd root f)) (getDirectories cwd files root).
Proof.
  intros Hok Hres E Hf Hn.
  destruct (resolved_root _ _ Hres) as [Ha Hroot].
  destruct (walk_shape _ _ _ _ Hok Ha E) as (es & _ & -> & Hrels).
  apply in_map_iff in Hf. destruct Hf as (rel & <- & Hrel).
  rewrite Forall_forall in Hrels. destruct (Hrels _ Hrel) as [Hne Hv].
  pose proof (resolve_segs_valid cwd root) as Hrs.
  assert (Hpre : removelast rel <> []).
  { intros Epre. apply Hn.
    rewrite dirname_below, Epre, app_nil_r; [now symmetry|assumption|].
    apply Forall_app; now split. }
  apply getDirectories_In.
  exists (abs_path (resolve_segs cwd root ++ rel)).
  split; [apply in_map_iff; now exists rel|]. split; [reflexivity|].
  fold (dir_of cwd root (abs_path (resolve_segs cwd root ++ rel))).
  rewrite dir_of_below by assumption.
  destruct (removelast rel) as [|x pre] eqn:Er; [congruence|].
  rewrite <- Er in *. apply kept_below; [assumption|assumption|now apply removelast_valid].
Qed.

(** The hypothesis on the root below is what the callers provide:
    [path.join] returns a resolved path.  For the root [/srv/nginx/],
    written with a trailing separator, [categorizeFiles] and
    [getDirectories] disagree: the file [nginx.conf] is classified as
    nested and emitted with the remote directory ["."], which is not a
    directory of the plan. *)
Example trailing_separator_root :
  let P := planOf nginx_fs "/" (nginx_props "/srv/nginx/") empty_scope in
  resolve "/" "/srv/nginx/" = "/srv/nginx"
  /\ map (fun f => (file_name f, file_path f)) (plan_files P)
     = [("nginx.conf", Some "."); ("default.conf", Some "conf.d")]
  /\ map dir_name (plan_directories P) = ["conf.d"].
Proof. repeat split. Qed.

(** C3: for a root that is a resolved absolute path (no trailing separator,
    no empty, ["."] or [".."] segment - what [path.join] returns for the
    three mount directories), every file of the plan that carries a remote
    directory names a directory of the same plan; that is, for every file
    of the walk whose dirname is not the root, dirname(relative(root, file))
    is among the directories [getDirectories] returns. *)
Theorem C3_nested_directory_is_planned fs cwd props s :
  fs_ok fs = true ->
  resolve cwd (localMountDir props) = localMountDir props ->
  (forall f p, In f (plan_files (planOf fs cwd props s)) -> file_path f = Some p ->
               exists d, In d (plan_directories (planOf fs cwd props s)) /\ dir_name d = p)
  /\ (forall files f,
        getAllFiles fs cwd (localMountDir props) = Ok files ->
        In f files -> dirname f <> localMountDir props ->
        In (dirname (relative cwd (localMountDir props) f))
           (getDirectories cwd files (localMountDir props))).
Proof.
  intros Hok Hres. split.
  - intros f p Hin Hp.
    destruct (plan_files_inv _ _ _ _ _ Hin)
      as (files & E & Hd & [(src & _ & ->)|(src & Hsrc & ->)]); [discriminate|].
    simpl in Hp.
    destruct (String.eqb_spec (dirname (relative cwd (localMountDir props) src)) "./") as [X|_];
      [now apply dirname_relative_not_dot_slash in X|].
    inversion Hp; subst p.
    apply categorizeFiles_In in Hsrc. destruct Hsrc as [Hf Hn].
    exists (theDirectory props (dirname (relative cwd (localMountDir props) src))).
    split; [|reflexivity]. rewrite Hd. apply in_map.
    eapply nested_directory_listed; eassumption.
  - intros files f E Hf Hn. eapply nested_directory_listed; eassumption.
Qed.

Lemma C3_witness :
  let P := planOf nginx_fs "/" (nginx_props "/srv/nginx") empty_scope in
  exists f d, In f (plan_files P) /\ file_path f = Some "conf.d"
              /\ In d (plan_directories P) /\ dir_name d = "conf.d".
Proof.
  intros P.
  assert (H : In (nth 1 (plan_files P) (rootFile (nginx_props "") [] "")) (plan_files P))
    by (vm_compute; tauto).
  destruct (proj1 (C3_nested_directory_is_planned nginx_fs "/" (nginx_props "/srv/nginx")
                     empty_scope eq_refl eq_refl) _ "conf.d" H eq_refl) as (d & Hd & E).
  eexists; exists d. split; [exact H|]. split; [reflexivity|]. split; assumption.
Defined.

(** *** Counting the plan *)

Lemma filter_partition_length {A} (p : A -> bool) l :
  List.length (filter p l) + List.length (filter (fun x => negb (p x)) l) = List.length l.
Proof.
  induction l as [|x l IH]; [reflexivity|]. simpl.
  destruct (p x); simpl; lia.
Qed.

Lemma kept_dot root : kept root "." = false.
Proof. unfold kept. simpl. apply andb_false_r. Qed.

Lemma kept_dirs_below cwd root rels :
  isAbsolute root = true ->
  Forall (fun rel => rel <> [] /\ Forall (fun s => valid_name s = true) rel) rels ->
  filter (kept root)
         (map (dir_of cwd root)
              (map (fun rel => abs_path (resolve_segs cwd root ++ rel)) rels))
  = map join_sep
        (filter (fun d => match d with [] => false | _ => true end)
                (map (@removelast string) rels)).
Proof.
  intros Ha H. induction H as [|rel rels [Hne Hv] _ IH]; [reflexivity|].
  simpl. rewrite dir_of_below by assumption.
  destruct (removelast rel) as [|x pre] eqn:E.
  - rewrite kept_dot. simpl. exact IH.
  - rewrite kept_below; [simpl; now rewrite IH|assumption|discriminate|].
    rewrite <- E. now apply removelast_valid.
Qed.

Lemma dedup_map_length (L : list (list string)) :
  Forall (fun d => Forall (fun s => valid_name s = true) d) L ->
  List.length (dedup (map join_sep L))
  = List.length (nodup (list_eq_dec string_dec) L).
Proof.
  intros H. rewrite <- (length_map join_sep (nodup _ L)).
  apply Permutation_length, NoDup_Permutation.
  - apply dedup_NoDup.
  - apply NoDup_map_NoDup_ForallPairs; [|apply NoDup_nodup].
    intros a b Hin1 Hin2 E. apply nodup_In in Hin1, Hin2.
    rewrite Forall_forall in H.
    apply join_sep_inj; [apply Forall_valid_clean, H, Hin1|apply Forall_valid_clean, H, Hin2|exact E].
  - intros x. rewrite dedup_In, !in_map_iff.
    split; intros (y & E & Hy); exists y; (split; [exact E|]); now apply nodup_In in Hy || apply nodup_In.
Qed.

(** C1: a root with N regular files is to yield N files in the plan.  The
    mount directory holding [x] and [root/x] has N = 2 and D = 1, but its
    plan holds one file: the root-level [x] and the nested [root/x] are
    both given the id [file_nginx_root_x], and the second
    [new StorageShareFile] throws. *)
Theorem C1_colliding_file_ids :
  let fs := app_with twin_files in
  let props := mount_props "nginx" in
  let files := ["/app/mountfiles/nginx/root/x"; "/app/mountfiles/nginx/x"] in
  fs_ok fs = true
  /\ lookup fs "/" (localMountDir props) = Ok twin_files
  /\ List.length (files_of twin_files) = 2
  /\ List.length (parent_dirs twin_files) = 1
  /\ getAllFiles fs "/" (localMountDir props) = Ok files
  /\ map file_id (filesOf (planned "/" props files))
     = ["file_nginx_root_x"; "file_nginx_root_x"]
  /\ fst (createFileShare fs "/" props empty_scope)
     = Throw (DuplicateConstruct "file_nginx_root_x")
  /\ map dir_name (plan_directories (planOf fs "/" props empty_scope)) = ["root"]
  /\ map file_source (plan_files (planOf fs "/" props empty_scope))
     = ["/app/mountfiles/nginx/x"].
Proof. repeat split. Qed.

End Claims.

(** * Further properties of the walk, the two passes and the planner *)

Section More.
Import Path PathFacts.

(** *** [basename] *)

Lemma takeWhile_app_stop {A} (p : A -> bool) l1 y l2 :
  Forall (fun a => p a = true) l1 -> p y = false ->
  takeWhile p (l1 ++ y :: l2) = l1.
Proof.
  intros H Hy; induction H as [|a l1 Ha _ IH]; simpl; [now rewrite Hy|].
  now rewrite Ha, IH.
Qed.

Lemma basename_entry a x : clean x = true -> basename (a +++ String "/" x) = x.
Proof.
  intros H. unfold basename, basename_chars.
  rewrite chars_app. change (chars (String "/" x)) with ("/"%char :: chars x).
  rewrite rev_app_distr. simpl rev. rewrite <- !app_assoc. simpl app.
  pose proof (sep_free_Forall _ (clean_sep_free _ H)) as Hf. apply Forall_rev in Hf.
  assert (Hd : dropWhile is_sep (rev (chars x) ++ "/"%char :: rev (chars a))
               = rev (chars x) ++ "/"%char :: rev (chars a)).
  { destruct (rev (chars x)) as [|c l] eqn:E.
    - apply (f_equal (@rev ascii)) in E; rewrite rev_involutive in E; simpl in E.
      apply clean_nonempty in H. destruct x; [congruence|discriminate].
    - inversion Hf; subst. simpl app. apply dropWhile_head. now apply negb_true_iff. }
  rewrite Hd, takeWhile_app_stop; [|assumption|reflexivity].
  rewrite rev_involutive. apply str_chars.
Qed.

Lemma basename_abs_path pre x :
  clean x = true -> basename (abs_path (pre ++ [x])) = x.
Proof.
  intros H. unfold abs_path. destruct pre as [|y pre].
  - simpl. unfold join_sep; simpl.
    change (String "/" x) with ("" +++ String "/" x). now apply basename_entry.
  - rewrite join_sep_snoc by discriminate.
    change (String "/" (join_sep (y :: pre) +++ String "/" x))
      with ((String "/" (join_sep (y :: pre))) +++ String "/" x).
    now apply basename_entry.
Qed.

(** *** The files of a well-formed tree *)

Lemma files_of_In : forall k n rel,
  height n <= k -> well_formed n = true ->
  (In rel (files_of n) <-> rel <> [] /\ node_at n rel = Some File).
Proof.
  induction k as [|k IH]; intros n rel Hh Hw.
  - destruct n; [|simpl in Hh; lia]. simpl. split; [tauto|].
    intros [Hne H]. destruct rel; [congruence|discriminate].
  - destruct n as [|es].
    + simpl. split; [tauto|]. intros [Hne H]. destruct rel; [congruence|discriminate].
    + pose proof (well_formed_entries _ Hw) as He. rewrite Forall_forall in He.
      simpl files_of. rewrite in_flat_map. split.
      * intros ([name child] & Hin & Hrel). destruct (He _ Hin) as (Hv & Hwc & Hf & Hhc).
        simpl in *. destruct child as [|es'].
        -- destruct Hrel as [<-|[]]. split; [discriminate|]. simpl. now rewrite Hf.
        -- apply in_map_iff in Hrel. destruct Hrel as (rel' & <- & Hrel').
           apply (IH (Dir es')) in Hrel'; [|simpl in *; lia|assumption].
           split; [discriminate|]. simpl. rewrite Hf. apply Hrel'.
      * intros [Hne H]. destruct rel as [|name rel']; [congruence|].
        simpl in H. destruct (find_entry name es) as [child|] eqn:Ef; [|discriminate].
        pose proof (find_entry_In _ _ _ Ef) as Hin.
        exists (name, child). split; [assumption|]. simpl.
        destruct (He _ Hin) as (Hv & Hwc & _ & Hhc). simpl in *.
        destruct rel' as [|x rel'].
        -- simpl in H. inversion H; subst. now left.
        -- destruct child as [|es']; [discriminate|].
           apply in_map. apply (IH (Dir es')); [simpl in *; lia|assumption|].
           split; [discriminate|assumption].
Qed.

Lemma flat_map_NoDup (g : string * node -> list (list string)) es :
  nodupb (map fst es) = true ->
  Forall (fun e => NoDup (g e)
                   /\ forall rel, In rel (g e) -> exists rest, rel = fst e :: rest) es ->
  NoDup (flat_map g es).
Proof.
  induction es as [|e es IH]; intros Hn H; [constructor|].
  simpl in Hn. apply andb_true_iff in Hn; destruct Hn as [Hx Hn].
  inversion H as [|? ? [Hg Hhd] Hrest]; subst.
  simpl. apply NoDup_app; [assumption|now apply IH|].
  intros rel Hin1 Hin2. destruct (Hhd _ Hin1) as (rest & ->).
  apply in_flat_map in Hin2. destruct Hin2 as (e' & He' & Hin2).
  rewrite Forall_forall in Hrest. destruct (Hrest _ He') as [_ Hhd'].
  destruct (Hhd' _ Hin2) as (rest' & E). inversion E; subst.
  apply negb_true_iff in Hx.
  assert (X : existsb (String.eqb (fst e)) (map fst es) = true); [|congruence].
  apply existsb_exists. exists (fst e'). split; [now apply in_map|].
  match goal with H : fst e = fst e' |- _ => rewrite H end. apply String.eqb_refl.
Qed.

Lemma files_of_NoDup : forall k n,
  height n <= k -> well_formed n = true -> NoDup (files_of n).
Proof.
  induction k as [|k IH]; intros n Hh Hw.
  - destruct n; [constructor|simpl in Hh; lia].
  - destruct n as [|es]; [constructor|].
    pose proof (well_formed_entries _ Hw) as He.
    simpl in Hw. apply andb_true_iff in Hw; destruct Hw as [Hw _].
    apply andb_true_iff in Hw; destruct Hw as [_ Hn].
    simpl files_of. apply flat_map_NoDup; [assumption|].
    eapply Forall_impl; [|exact He].
    intros [name child] (_ & Hwc & _ & Hhc). simpl in *.
    destruct child as [|es'].
    + split; [repeat constructor; simpl; tauto|].
      intros rel [<-|[]]. now exists [].
    + split.
      * apply NoDup_map_NoDup_ForallPairs; [|apply (IH (Dir es')); [simpl in *; lia|assumption]].
        intros x y _ _ E. now inversion E.
      * intros rel Hin. apply in_map_iff in Hin. destruct Hin as (rest & <- & _).
        now exists rest.
Qed.

(** X1: on a well-formed file system the walk from an absolute directory
    returns each regular file below that directory exactly once, and
    nothing else. *)
Theorem X1_walk_enumerates_regular_files fs cwd dir es :
  fs_ok fs = true -> isAbsolute dir = true ->
  lookup fs cwd dir = Ok (Dir es) ->
  exists files,
    getAllFiles fs cwd dir = Ok files
    /\ NoDup files
    /\ (forall p, In p files
                  <-> exists rel, rel <> [] /\ node_at (Dir es) rel = Some File
                                  /\ p = abs_path (resolve_segs cwd dir ++ rel)).
Proof.
  intros Hok Ha Hl.
  pose proof (getAllFiles_spec _ _ _ _ Hok Ha Hl) as E.
  apply andb_true_iff in Hok; destruct Hok as [Hd Hw].
  destruct (node_at_sub _ _ _ (lookup_node_at _ _ _ _ Ha Hl)) as [_ Hw'].
  specialize (Hw' Hw).
  pose proof (files_of_valid _ _ (le_n _) Hw') as Hv. rewrite Forall_forall in Hv.
  pose proof (resolve_segs_valid cwd dir) as Hrs.
  eexists; split; [exact E|]. split.
  - apply NoDup_map_NoDup_ForallPairs; [|now apply (files_of_NoDup _ _ (le_n _))].
    intros a b Hin1 Hin2 Eab.
    apply abs_path_inj in Eab.
    + now apply app_inv_head in Eab.
    + apply Forall_valid_clean, Forall_app; split; [assumption|apply (Hv _ Hin1)].
    + apply Forall_valid_clean, Forall_app; split; [assumption|apply (Hv _ Hin2)].
  - intros p. rewrite in_map_iff. split.
    + intros (rel & <- & Hin). exists rel.
      apply (files_of_In _ _ _ (le_n _) Hw') in Hin. tauto.
    + intros (rel & Hne & Hn & ->). exists rel. split; [reflexivity|].
      now apply (files_of_In _ _ _ (le_n _) Hw').
Qed.

Lemma X1_witness :
  exists files,
    getAllFiles nginx_fs "/" "/srv/nginx" = Ok files
    /\ NoDup files
    /\ In "/srv/nginx/conf.d/default.conf" files.
Proof.
  destruct (X1_walk_enumerates_regular_files nginx_fs "/" "/srv/nginx"
              [("nginx.conf", File);
               ("conf.d", Dir [("default.conf", File); ("empty", Dir [])]);
               ("empty2", Dir [])] eq_refl eq_refl eq_refl) as (files & E & Hn & Hin).
  exists files. split; [exact E|]. split; [exact Hn|].
  apply Hin. exists ["conf.d"; "default.conf"]. repeat split. discriminate.
Defined.

(** X2: the source of every file a plan emits is a path at which the file
    system holds a regular file, on any file system. *)
Theorem X2_sources_are_regular_files fs cwd props s rf :
  In rf (plan_files (planOf fs cwd props s)) ->
  lookup fs cwd (file_source rf) = Ok File.
Proof.
  intros H.
  destruct (plan_files_inv _ _ _ _ _ H) as (files & E & _ & Hsrc).
  pose proof (getAllFiles_rec_regular _ _ _ _ _ E) as Hreg. rewrite Forall_forall in Hreg.
  destruct Hsrc as [(src & Hin & ->)|(src & Hin & ->)]; simpl; apply Hreg;
    now apply categorizeFiles_In in Hin.
Qed.

Lemma X2_witness :
  let P := planOf nginx_fs "/" (nginx_props "/srv/nginx") empty_scope in
  exists rf, In rf (plan_files P) /\ file_name rf = "nginx.conf"
             /\ lookup nginx_fs "/" (file_source rf) = Ok File.
Proof.
  intros P.
  assert (H : In (nth 0 (plan_files P) (rootFile (nginx_props "") [] "")) (plan_files P))
    by (vm_compute; tauto).
  eexists; split; [exact H|]. split; [reflexivity|].
  apply (X2_sources_are_regular_files _ _ _ _ _ H).
Defined.



(** X4: a call only appends to the scope; and in a scope none of whose
    children has the name of a construct the call creates on the empty
    scope, the call creates the same constructs, in the same order, and
    returns or throws the same. *)
Theorem X4_call_appends fs cwd props s :
  (exists created,
     children (snd (createFileShare fs cwd props s)) = children s ++ created)
  /\ ((forall c, In c (children s) ->
         hasChild (childName c)
           (children (snd (createFileShare fs cwd props empty_scope))) = false) ->
      children (snd (createFileShare fs cwd props s))
      = children s ++ children (snd (createFileShare fs cwd props empty_scope))
      /\ fst (createFileShare fs cwd props s)
         = fst (createFileShare fs cwd props empty_scope)).
Proof.
  split.
  - exists (emitted fs cwd props s). apply children_run.
  - intros H. rewrite (createFileShare_frame _ _ _ _ H). split; reflexivity.
Qed.

Lemma X4_witness :
  let s := snd (createFileShare app_fs "/" (mount_props "sandbox") empty_scope) in
  map construct_id (children s) = ["share_sandbox"; "file_sandbox_root_python-requirements.txt"]
  /\ map construct_id (children (snd (createFileShare app_fs "/" (mount_props "nginx") s)))
     = ["share_sandbox"; "file_sandbox_root_python-requirements.txt";
        "share_nginx"; "dir_nginx_conf.d"; "file_nginx_root_nginx.conf";
        "file_nginx_conf.d_default.conf"].
Proof.
  intros s. split; [reflexivity|].
  assert (H : forall c, In c (children s) ->
                hasChild (childName c)
                  (children (snd (createFileShare app_fs "/" (mount_props "nginx")
                                    empty_scope))) = false).
  { intros c Hc. vm_compute in Hc. destruct Hc as [<-|[<-|[]]]; reflexivity. }
  rewrite (proj1 (proj2 (X4_call_appends app_fs "/" (mount_props "nginx") s) H)).
  reflexivity.
Defined.

Lemma get_assign_same k v m : get k (assign k v m) = Some v.
Proof.
  induction m as [|[k' v'] m IH]; simpl; [now rewrite String.eqb_refl|].
  destruct (k' =? k)%string eqn:E; simpl; [now rewrite String.eqb_refl|now rewrite E].
Qed.

Lemma get_assign_other k k0 v m : k0 <> k -> get k0 (assign k v m) = get k0 m.
Proof.
  intros Hne. induction m as [|[k' v'] m IH]; simpl.
  - apply String.eqb_neq in Hne. rewrite String.eqb_sym in Hne. now rewrite Hne.
  - destruct (String.eqb_spec k' k) as [->|Hk]; simpl.
    + apply String.eqb_neq in Hne. rewrite String.eqb_sym in Hne. now rewrite Hne.
    + destruct (k' =? k0)%string; [reflexivity|exact IH].
Qed.

(** X5: after a call in a scope that has no child named after the share,
    also a call that throws, the table of shares maps the share name to a
    share of that name and account, which is a child of the scope, and
    every other name to what it was mapped to before.  In a scope that has
    such a child, [new StorageShare] throws: the table and the children
    stay as they were. *)
Theorem X5_share_is_registered fs cwd props s :
  (hasChild (sanitizeId ("share_" +++ shareName props)) (children s) = false ->
   (exists share,
      get (shareName props) (shares (snd (createFileShare fs cwd props s))) = Some share
      /\ share_name share = shareName props
      /\ share_storageAccountName share = storageAccountName props
      /\ In (CShare share) (children (snd (createFileShare fs cwd props s))))
   /\ (forall k, k <> shareName props ->
                 get k (shares (snd (createFileShare fs cwd props s))) = get k (shares s)))
  /\ (hasChild (sanitizeId ("share_" +++ shareName props)) (children s) = true ->
      createFileShare fs cwd props s
      = (Throw (DuplicateConstruct (sanitizeId ("share_" +++ shareName props))), s)).
Proof.
  split.
  - intros Hs.
    assert (R : shares (snd (createFileShare fs cwd props s))
                = assign (shareName props) (theShare props) (shares s)
                /\ In (CShare (theShare props))
                      (children (snd (createFileShare fs cwd props s)))).
    { destruct (getAllFiles fs cwd (localMountDir props)) as [files|e] eqn:E.
      - rewrite (createFileShare_Ok _ _ _ s _ Hs E). simpl. split; [reflexivity|].
        apply in_or_app; right. now left.
      - rewrite (createFileShare_Throw _ _ _ s _ Hs E). simpl. split; [reflexivity|].
        apply in_or_app; right. now left. }
    destruct R as [-> Hin]. split.
    + exists (theShare props). split; [apply get_assign_same|]. now repeat split.
    + intros k Hk. now apply get_assign_other.
  - intros Hs. exact (createFileShare_taken fs cwd props s Hs).
Qed.

Lemma X5_witness :
  let s := snd (createFileShare app_fs "/" (mount_props "nginx") empty_scope) in
  (exists share, get "nginx" (shares s) = Some share /\ share_name share = "nginx")
  /\ createFileShare app_fs "/" (mount_props "nginx") s
     = (Throw (DuplicateConstruct "share_nginx"), s).
Proof.
  intros s. split.
  - destruct (proj1 (proj1 (X5_share_is_registered app_fs "/" (mount_props "nginx") empty_scope)
                       eq_refl)) as (share & H1 & H2 & _).
    exists share. now split.
  - exact (proj2 (X5_share_is_registered app_fs "/" (mount_props "nginx") s) eq_refl).
Defined.

Lemma StronglySorted_app_l {A} (R : A -> A -> Prop) (a b : list A) :
  StronglySorted R (a ++ b) -> StronglySorted R a.
Proof.
  induction a as [|x a IH]; intros H; [constructor|].
  simpl in H. inversion H as [|? ? Hs Hf]; subst. constructor; [now apply IH|].
  apply Forall_app in Hf. tauto.
Qed.

(** X6: the creation order of a call: the share first, then every
    directory, in strictly ascending order of name, then every file - the
    root-level ones, which carry no remote directory, before the nested
    ones, which carry one. *)
Theorem X6_creation_order fs cwd props :
  let P := planOf fs cwd props empty_scope in
  (exists share,
     children (snd (createFileShare fs cwd props empty_scope))
     = CShare share :: map CDirectory (plan_directories P) ++ map CFile (plan_files P))
  /\ StronglySorted str_lt (map dir_name (plan_directories P))
  /\ (exists rootLevel nested,
        plan_files P = rootLevel ++ nested
        /\ Forall (fun f => file_path f = None) rootLevel
        /\ Forall (fun f => file_path f <> None) nested).
Proof.
  intros P. subst P. split; [|split].
  - exists (theShare props). rewrite children_run.
    destruct (emitted_cases fs cwd props empty_scope) as [[X _]|[_ ->]]; [discriminate|].
    reflexivity.
  - destruct (plan_cases fs cwd props empty_scope) as [[-> _]|(files & E & X)]; [constructor|].
    cbv zeta in X.
    assert (Y : exists d2, map (theDirectory props)
                             (getDirectories cwd files (localMountDir props))
                           = plan_directories (planOf fs cwd props empty_scope) ++ d2).
    { destruct X as [(d1 & d2 & Ed & Hd & _)|(f1 & f2 & _ & Hd & _)].
      - exists d2. now rewrite Hd.
      - exists []. now rewrite Hd, app_nil_r. }
    destruct Y as (d2 & Y). apply (f_equal (map dir_name)) in Y.
    rewrite map_map in Y. simpl in Y. rewrite map_id, map_app in Y.
    pose proof (getDirectories_sorted cwd files (localMountDir props)) as S.
    rewrite Y in S. now apply StronglySorted_app_l in S.
  - destruct (plan_cases fs cwd props empty_scope) as [[_ ->]|(files & E & X)].
    { exists [], []. repeat split; constructor. }
    cbv zeta in X. destruct X as [(d1 & d2 & _ & _ & ->)|(f1 & f2 & Ef & _ & ->)].
    { exists [], []. repeat split; constructor. }
    apply app_eq_app in Ef. destruct Ef as (l & [[E1 E2]|[E1 E2]]).
    + apply map_eq_app in E1. destruct E1 as (r1 & r2 & _ & <- & _).
      exists (map (rootFile props
                     (map (theDirectory props)
                          (getDirectories cwd files (localMountDir props)))) r1), [].
      rewrite app_nil_r. split; [reflexivity|]. split; [|constructor].
      apply Forall_forall; intros f Hin; apply in_map_iff in Hin;
        destruct Hin as (src & <- & _); reflexivity.
    + apply map_eq_app in E2. destruct E2 as (n1 & n2 & _ & <- & _).
      eexists; eexists; split; [exact E1|].
      split; apply Forall_forall; intros f Hin; apply in_map_iff in Hin;
        destruct Hin as (src & <- & _); simpl; congruence.
Qed.

(** X7: every directory and every file of a plan refers to the share the
    call returns. *)
Theorem X7_everything_belongs_to_the_share fs cwd props s share :
  fst (createFileShare fs cwd props s) = Ok share ->
  Forall (fun d => dir_storageShareId d = share_id share)
         (plan_directories (planOf fs cwd props s))
  /\ Forall (fun f => file_storageShareId f = share_id share)
            (plan_files (planOf fs cwd props s)).
Proof.
  intros H. destruct (createFileShare_returns _ _ _ _ _ H) as (-> & _).
  destruct (plan_Ok fs cwd props s _ H) as (files & _ & -> & ->). split.
  - apply Forall_forall. intros d Hin. apply in_map_iff in Hin.
    now destruct Hin as (x & <- & _).
  - apply Forall_forall. intros f Hin. apply in_app_or in Hin.
    destruct Hin as [Hin|Hin]; apply in_map_iff in Hin; now destruct Hin as (x & <- & _).
Qed.

Lemma X7_witness :
  let P := planOf nginx_fs "/" (nginx_props "/srv/nginx") empty_scope in
  Forall (fun d => dir_storageShareId d = "share_nginx") (plan_directories P)
  /\ Forall (fun f => file_storageShareId f = "share_nginx") (plan_files P).
Proof.
  intros P.
  apply (X7_everything_belongs_to_the_share nginx_fs "/" (nginx_props "/srv/nginx")
           empty_scope (theShare (nginx_props "/srv/nginx"))).
  reflexivity.
Defined.

(** X8: each list [categorizeFiles] returns holds its files in the order of
    the input, as often as the input holds them: the root-level list is the
    input filtered by dirname(file) = root, the nested list the input
    filtered by its negation. *)
Theorem X8_categorizeFiles_keeps_order files root :
  rootFiles (categorizeFiles files root)
  = filter (fun f => (dirname f =? root)%string) files
  /\ subdirFiles (categorizeFiles files root)
     = filter (fun f => negb (dirname f =? root)%string) files.
Proof. apply categorizeFiles_eq. Qed.

(** *** Where the files of a plan go *)

Lemma walked_file fs cwd root files src :
  fs_ok fs = true -> isAbsolute root = true ->
  getAllFiles fs cwd root = Ok files -> In src files ->
  exists es pre x,
    lookup fs cwd root = Ok (Dir es)
    /\ In (pre ++ [x]) (files_of (Dir es))
    /\ Forall (fun s => valid_name s = true) (pre ++ [x])
    /\ src = abs_path (resolve_segs cwd root ++ pre ++ [x])
    /\ dirname src = abs_path (resolve_segs cwd root ++ pre)
    /\ basename src = x
    /\ relative cwd root src = join_sep (pre ++ [x]).
Proof.
  intros Hok Ha E Hin.
  destruct (walk_shape _ _ _ _ Hok Ha E) as (es & Hl & -> & Hrels).
  apply in_map_iff in Hin. destruct Hin as (rel & <- & Hrel).
  rewrite Forall_forall in Hrels. destruct (Hrels _ Hrel) as [Hne Hv].
  destruct (exists_last Hne) as (pre & x & ->).
  pose proof (resolve_segs_valid cwd root) as Hrs.
  assert (Hx : clean x = true)
    by (apply Forall_app in Hv; destruct Hv as [_ Hv]; inversion Hv; now apply valid_clean).
  exists es, pre, x. repeat split; try assumption.
  - rewrite app_assoc. apply dirname_abs_path. rewrite <- app_assoc.
    apply Forall_valid_clean, Forall_app; now split.
  - rewrite app_assoc. now apply basename_abs_path.
  - now apply relative_below.
Qed.

Lemma root_dirname_depth cwd root pre :
  Forall (fun s => valid_name s = true) pre ->
  abs_path (resolve_segs cwd root ++ pre) = root -> pre = [].
Proof.
  intros Hv E.
  assert (R : resolve_segs cwd root = resolve_segs cwd root ++ pre).
  { rewrite <- E at 1. apply resolve_segs_abs_path.
    apply Forall_app; split; [apply resolve_segs_valid|assumption]. }
  apply (app_inv_head (resolve_segs cwd root)). now rewrite app_nil_r.
Qed.

(** X9: on a well-formed file system and for an absolute root, the place a
    file is given in the share is its path relative to the root: the name
    alone for a file without remote directory (or with the remote directory
    ["."]), the remote directory, a separator and the name otherwise. *)
Theorem X9_remote_place_is_the_relative_path fs cwd props s rf :
  fs_ok fs = true -> isAbsolute (localMountDir props) = true ->
  In rf (plan_files (planOf fs cwd props s)) ->
  match file_path rf with
  | None => relative cwd (localMountDir props) (file_source rf) = file_name rf
  | Some p =>
      (p = "." /\ relative cwd (localMountDir props) (file_source rf) = file_name rf)
      \/ relative cwd (localMountDir props) (file_source rf) = p +++ "/" +++ file_name rf
  end.
Proof.
  intros Hok Ha Hin.
  destruct (plan_files_inv _ _ _ _ _ Hin) as (files & E & _ & Hsrc).
  destruct Hsrc as [(src & Hs & ->)|(src & Hs & ->)];
    apply categorizeFiles_In in Hs; destruct Hs as [Hf Hd];
    destruct (walked_file _ _ _ _ _ Hok Ha E Hf)
      as (es & pre & x & _ & _ & Hv & _ & Hdir & Hbase & Hrel); simpl.
  - rewrite Hrel, Hbase. rewrite Hdir in Hd.
    apply root_dirname_depth in Hd; [now subst pre|now apply Forall_app in Hv].
  - rewrite Hrel, Hbase, dirname_join_sep by now apply Forall_valid_clean.
    destruct pre as [|y pre]; [left; split; reflexivity|right].
    destruct (String.eqb_spec (join_sep (y :: pre)) "./") as [X|_].
    + exfalso. apply (f_equal split) in X.
      apply Forall_app in Hv. destruct Hv as [Hv _].
      rewrite split_join_sep in X;
        [|discriminate|eapply Forall_impl; [|exact Hv]; intros a Ha';
                       now apply clean_sep_free, valid_clean].
      inversion X; subst. inversion Hv as [|? ? _ Hv']; subst. inversion Hv'; discriminate.
    + now rewrite join_sep_snoc by discriminate.
Qed.

Lemma X9_witness :
  let P := planOf nginx_fs "/" (nginx_props "/srv/nginx") empty_scope in
  exists rf, In rf (plan_files P)
             /\ file_path rf = Some "conf.d" /\ file_name rf = "default.conf"
             /\ relative "/" "/srv/nginx" (file_source rf) = "conf.d/default.conf".
Proof.
  intros P.
  assert (H : In (nth 1 (plan_files P) (rootFile (nginx_props "") [] "")) (plan_files P))
    by (vm_compute; tauto).
  pose proof (X9_remote_place_is_the_relative_path nginx_fs "/" (nginx_props "/srv/nginx")
                empty_scope _ eq_refl eq_refl H) as X.
  eexists; split; [exact H|]. split; [reflexivity|]. split; [reflexivity|].
  destruct X as [[X _]|X]; [discriminate X|exact X].
Defined.

(** X10: for a root that is a resolved absolute path, on a well-formed file
    system, a file emitted without a remote directory is a regular file
    the root directory lists itself, emitted under its entry name and with
    the source [path.join(root, name)]; and when the call returns, every
    regular file the root directory lists has been emitted so. *)
Theorem X10_root_level_is_direct_entry fs cwd props s es :
  fs_ok fs = true ->
  resolve cwd (localMountDir props) = localMountDir props ->
  lookup fs cwd (localMountDir props) = Ok (Dir es) ->
  (forall rf, In rf (plan_files (planOf fs cwd props s)) -> file_path rf = None ->
     exists name, In (name, File) es
                  /\ file_source rf = join [localMountDir props; name]
                  /\ file_name rf = name)
  /\ ((exists share, fst (createFileShare fs cwd props s) = Ok share) ->
      forall name, In (name, File) es ->
        exists rf, In rf (plan_files (planOf fs cwd props s))
                   /\ file_source rf = join [localMountDir props; name]
                   /\ file_name rf = name /\ file_path rf = None).
Proof.
  intros Hok Hres Hl.
  destruct (resolved_root _ _ Hres) as [Ha Hroot].
  pose proof (getAllFiles_spec _ _ _ _ Hok Ha Hl) as E.
  pose proof Hok as Hok'. apply andb_true_iff in Hok'; destruct Hok' as [Hd Hw].
  destruct (node_at_sub _ _ _ (lookup_node_at _ _ _ _ Ha Hl)) as [_ Hw'].
  specialize (Hw' Hw).
  pose proof (well_formed_entries _ Hw') as He. rewrite Forall_forall in He.
  pose proof (resolve_segs_valid cwd (localMountDir props)) as Hrs.
  split.
  - intros rf Hin Hnone.
    destruct (plan_files_inv _ _ _ _ _ Hin) as (files & E' & _ & Hsrc).
    destruct Hsrc as [(src & Hs & ->)|(src & Hs & ->)]; [|discriminate].
    apply categorizeFiles_In in Hs; destruct Hs as [Hf Hdn].
    destruct (walked_file _ _ _ _ _ Hok Ha E' Hf)
      as (es' & pre & x & Hl' & Hrel & Hv & Hsrc & Hdir & Hbase & _).
    rewrite Hl in Hl'. inversion Hl'; subst es'.
    rewrite Hdir in Hdn. apply root_dirname_depth in Hdn; [|now apply Forall_app in Hv].
    subst pre. simpl app in Hrel, Hv, Hsrc.
    apply (files_of_In _ _ _ (le_n _) Hw') in Hrel. destruct Hrel as [_ Hrel].
    simpl in Hrel. destruct (find_entry x es) as [child|] eqn:Ef; [|discriminate].
    inversion Hrel; subst child. apply find_entry_In in Ef.
    exists x. split; [assumption|]. split; [|assumption].
    rewrite Hsrc. symmetry. apply join_entry; [assumption|now inversion Hv].
  - intros (share & Hret) name Hin.
    destruct (plan_Ok fs cwd props s _ Hret) as (files' & E' & _ & Hp).
    rewrite E in E'. inversion E'; subst files'. clear E'.
    destruct (He _ Hin) as (Hv & _ & Hf & _). simpl in Hv, Hf.
    assert (Hrel : In [name] (files_of (Dir es))).
    { apply (files_of_In _ _ _ (le_n _) Hw'). split; [discriminate|]. simpl. now rewrite Hf. }
    set (f := abs_path (resolve_segs cwd (localMountDir props) ++ [name])).
    assert (Hdir : dirname f = localMountDir props).
    { unfold f. rewrite dirname_abs_path; [now symmetry|].
      apply Forall_valid_clean, Forall_app; split; [assumption|now repeat constructor]. }
    exists (rootFile props
              (map (theDirectory props)
                   (getDirectories cwd
                      (map (fun rel => abs_path (resolve_segs cwd (localMountDir props) ++ rel))
                           (files_of (Dir es))) (localMountDir props))) f).
    split; [|split; [|split]].
    + rewrite Hp. apply in_or_app; left. apply in_map.
      apply categorizeFiles_In. split; [|assumption].
      apply in_map_iff. now exists [name].
    + simpl. unfold f. symmetry. now apply join_entry.
    + simpl. unfold f. apply basename_abs_path. now apply valid_clean.
    + reflexivity.
Qed.

Lemma X10_witness :
  let P := planOf nginx_fs "/" (nginx_props "/srv/nginx") empty_scope in
  exists rf, In rf (plan_files P)
             /\ file_source rf = "/srv/nginx/nginx.conf"
             /\ file_name rf = "nginx.conf" /\ file_path rf = None.
Proof.
  intros P.
  apply (proj2 (X10_root_level_is_direct_entry nginx_fs "/" (nginx_props "/srv/nginx")
                  empty_scope
                  [("nginx.conf", File);
                   ("conf.d", Dir [("default.conf", File); ("empty", Dir [])]);
                   ("empty2", Dir [])] eq_refl eq_refl eq_refl)
           (ex_intro _ (theShare (nginx_props "/srv/nginx")) eq_refl) "nginx.conf").
  left; reflexivity.
Defined.

(** X11: on a well-formed file system and for an absolute root, the
    directories [getDirectories] lists are exactly those below the root
    that list a regular file themselves, under their path relative to the
    root; a directory that holds files only deeper down is not among them.
    Every remote directory of the plan is one of them, and when the call
    returns each of them has its remote directory. *)
Theorem X11_directories_with_a_file_of_their_own fs cwd props s es d :
  fs_ok fs = true -> isAbsolute (localMountDir props) = true ->
  lookup fs cwd (localMountDir props) = Ok (Dir es) ->
  let lists_a_file :=
    exists pre x, pre <> [] /\ node_at (Dir es) (pre ++ [x]) = Some File
                  /\ d = join_sep pre in
  (forall files, getAllFiles fs cwd (localMountDir props) = Ok files ->
     (In d (getDirectories cwd files (localMountDir props)) <-> lists_a_file))
  /\ (In d (map dir_name (plan_directories (planOf fs cwd props s))) -> lists_a_file)
  /\ ((exists share, fst (createFileShare fs cwd props s) = Ok share) ->
      lists_a_file ->
      In d (map dir_name (plan_directories (planOf fs cwd props s)))).
Proof.
  intros Hok Ha Hl lists_a_file. subst lists_a_file.
  pose proof (getAllFiles_spec _ _ _ _ Hok Ha Hl) as E.
  pose proof Hok as Hok'. apply andb_true_iff in Hok'; destruct Hok' as [_ Hw].
  destruct (node_at_sub _ _ _ (lookup_node_at _ _ _ _ Ha Hl)) as [_ Hw'].
  specialize (Hw' Hw).
  pose proof (files_of_valid _ _ (le_n _) Hw') as Hv. rewrite Forall_forall in Hv.
  assert (G : In d (getDirectories cwd
                      (map (fun rel => abs_path (resolve_segs cwd (localMountDir props) ++ rel))
                           (files_of (Dir es))) (localMountDir props))
              <-> exists pre x, pre <> [] /\ node_at (Dir es) (pre ++ [x]) = Some File
                                /\ d = join_sep pre).
  { rewrite getDirectories_In. split.
    - intros (f & Hf & -> & K). apply in_map_iff in Hf. destruct Hf as (rel & <- & Hrel).
      destruct (Hv _ Hrel) as [Hne Hval].
      rewrite dir_of_below in K |- * by assumption.
      destruct (removelast rel) as [|y pre] eqn:Er; [now rewrite kept_dot in K|].
      exists (y :: pre), (last rel ""). split; [discriminate|]. split; [|reflexivity].
      rewrite <- Er, <- (app_removelast_last "" Hne).
      now apply (files_of_In _ _ _ (le_n _) Hw').
    - intros (pre & x & Hne & Hn & ->).
      assert (Hrel : In (pre ++ [x]) (files_of (Dir es)))
        by (apply (files_of_In _ _ _ (le_n _) Hw'); split; [now destruct pre|assumption]).
      destruct (Hv _ Hrel) as [Hne' Hval].
      exists (abs_path (resolve_segs cwd (localMountDir props) ++ pre ++ [x])).
      split; [apply in_map_iff; now exists (pre ++ [x])|].
      rewrite dir_of_below, removelast_last by assumption.
      destruct pre as [|y pre]; [congruence|]. split; [reflexivity|].
      apply kept_below; [assumption|discriminate|now apply Forall_app in Hval]. }
  split; [|split].
  - intros files E'. rewrite E in E'. inversion E'; subst files. exact G.
  - intros Hin. apply in_map_iff in Hin. destruct Hin as (dd & <- & Hin).
    destruct (plan_directories_inv _ _ _ _ _ Hin) as (files & E' & Hdn & _).
    rewrite E in E'. inversion E'; subst files. now apply G.
  - intros (share & Hret) Hlist.
    destruct (plan_Ok fs cwd props s _ Hret) as (files' & E' & Hd & _).
    rewrite E in E'. inversion E'; subst files'.
    rewrite Hd, map_map. simpl. rewrite map_id. now apply G.
Qed.

Lemma X11_witness :
  let fs := Dir [("r", Dir [("a", Dir [("b", Dir [("c.txt", File)])])])] in
  let P := planOf fs "/" (nginx_props "/r") empty_scope in
  In "a/b" (map dir_name (plan_directories P))
  /\ ~ In "a" (getDirectories "/" ["/r/a/b/c.txt"] "/r").
Proof.
  intros fs P.
  pose proof (fun d => X11_directories_with_a_file_of_their_own fs "/" (nginx_props "/r")
                         empty_scope [("a", Dir [("b", Dir [("c.txt", File)])])] d
                         eq_refl eq_refl eq_refl) as X.
  split.
  - apply (proj2 (proj2 (X "a/b"))).
    + exists (theShare (nginx_props "/r")). reflexivity.
    + exists ["a"; "b"], "c.txt". repeat split. discriminate.
  - intros H. vm_compute in H. destruct H as [H|[]]. discriminate.
Defined.

(** *** The directory list does not depend on the order of the walk *)

Lemma str_lt_irrefl a : ~ str_lt a a.
Proof.
  unfold str_lt, String.ltb.
  assert (X : (a ?= a)%string = Eq) by now apply OrderedTypeEx.String_as_OT.cmp_eq.
  rewrite X. discriminate.
Qed.

Lemma sorted_unique l1 : forall l2,
  StronglySorted str_lt l1 -> StronglySorted str_lt l2 ->
  (forall x, In x l1 <-> In x l2) -> l1 = l2.
Proof.
  induction l1 as [|a l1 IH]; intros [|b l2] H1 H2 Hin.
  - reflexivity.
  - exfalso. apply (Hin b). now left.
  - exfalso. apply (Hin a). now left.
  - inversion H1 as [|? ? H1' Ha]; inversion H2 as [|? ? H2' Hb]; subst.
    rewrite Forall_forall in Ha, Hb.
    assert (E : a = b).
    { destruct (proj1 (Hin a) (or_introl eq_refl)) as [E|Hab]; [now symmetry|].
      destruct (proj2 (Hin b) (or_introl eq_refl)) as [E|Hba]; [assumption|].
      exfalso. apply (str_lt_irrefl a).
      eapply str_lt_trans; [apply Ha, Hba|apply Hb, Hab]. }
    subst b. f_equal. apply IH; try assumption.
    intros x. split; intros Hx.
    + destruct (proj1 (Hin x) (or_intror Hx)) as [<-|]; [|assumption].
      exfalso. apply (str_lt_irrefl a), Ha, Hx.
    + destruct (proj2 (Hin x) (or_intror Hx)) as [<-|]; [|assumption].
      exfalso. apply (str_lt_irrefl a), Hb, Hx.
Qed.

(** X12: [getDirectories] returns the same list for two file lists that
    hold the same paths, in whatever order and however often. *)
Theorem X12_getDirectories_ignores_order cwd files1 files2 root :
  (forall f, In f files1 <-> In f files2) ->
  getDirectories cwd files1 root = getDirectories cwd files2 root.
Proof.
  intros H. apply sorted_unique; try apply getDirectories_sorted.
  intros d. rewrite !getDirectories_In.
  split; intros (f & Hf & E); exists f; (split; [now apply H|assumption]).
Qed.

Lemma X12_witness :
  getDirectories "/" ["/r/a/x"; "/r/b/y"] "/r"
  = getDirectories "/" ["/r/b/y"; "/r/a/x"; "/r/b/y"] "/r".
Proof.
  apply X12_getDirectories_ignores_order.
  intros f; simpl; tauto.
Defined.

(** *** Construct ids *)

Lemma is_sep_eq c : is_sep c = true -> c = "/"%char.
Proof. apply Ascii.eqb_eq. Qed.

Lemma underscore_free_cons c s :
  underscore_free (String c s) = negb (Ascii.eqb c "_") && underscore_free s.
Proof. reflexivity. Qed.

Lemma replace_sep_inj a : forall b,
  underscore_free a = true -> underscore_free b = true ->
  replace_sep a = replace_sep b -> a = b.
Proof.
  induction a as [|c a IH]; intros [|c' b] Ha Hb E; simpl in E; try discriminate;
    [reflexivity|].
  rewrite underscore_free_cons in Ha, Hb.
  apply andb_true_iff in Ha; destruct Ha as [Hc Ha].
  apply andb_true_iff in Hb; destruct Hb as [Hc' Hb].
  apply negb_true_iff in Hc, Hc'.
  inversion E as [[Ec Erest]]. f_equal; [|now apply IH].
  destruct (is_sep c) eqn:S1, (is_sep c') eqn:S2.
  - apply is_sep_eq in S1, S2. congruence.
  - subst c'. discriminate.
  - subst c. discriminate.
  - assumption.
Qed.

Lemma append_inj_l p a b : p +++ a = p +++ b -> a = b.
Proof. induction p as [|c p IH]; simpl; intros E; [assumption|]. inversion E; auto. Qed.

Lemma sanitizeId_app a b : sanitizeId (a +++ b) = sanitizeId a +++ sanitizeId b.
Proof.
  induction a as [|c a IH]; [reflexivity|]. simpl. rewrite IH. now destruct (is_sep c).
Qed.

Lemma sanitizeId_replace_sep s : sanitizeId (replace_sep s) = replace_sep s.
Proof.
  induction s as [|c s IH]; [reflexivity|]. simpl. rewrite IH.
  now destruct (is_sep c) eqn:E; [|rewrite E].
Qed.

Lemma nodupb_NoDup l : NoDup l -> nodupb l = true.
Proof.
  induction 1 as [|x l Hx _ IH]; [reflexivity|]. simpl. rewrite IH, andb_true_r.
  apply negb_true_iff. destruct (existsb (String.eqb x) l) eqn:E; [|reflexivity].
  apply existsb_exists in E. destruct E as (y & Hy & E). apply String.eqb_eq in E.
  now subst y.
Qed.

Lemma directory_names_distinct props dirs :
  Forall (fun d => underscore_free d = true) dirs -> NoDup dirs ->
  NoDup (map childName (map CDirectory (map (theDirectory props) dirs))).
Proof.
  intros Hu Hn. rewrite !map_map. rewrite Forall_forall in Hu.
  apply NoDup_map_NoDup_ForallPairs; [|exact Hn].
  intros a b Ha Hb Eab. unfold childName in Eab. simpl in Eab.
  inversion Eab as [E1]. rewrite !sanitizeId_app in E1. apply append_inj_l in E1.
  simpl in E1. inversion E1 as [E2]. rewrite !sanitizeId_replace_sep in E2.
  apply replace_sep_inj; auto.
Qed.

(** X13: when none of the directory names [getDirectories] returns holds
    an underscore, no two directories get the same construct id: a call in
    the empty scope creates every one of them, and the construct ids of
    the directories of the plan are pairwise distinct. *)
Theorem X13_directory_ids_are_distinct fs cwd props files :
  getAllFiles fs cwd (localMountDir props) = Ok files ->
  Forall (fun d => underscore_free d = true)
         (getDirectories cwd files (localMountDir props)) ->
  map dir_name (plan_directories (planOf fs cwd props empty_scope))
  = getDirectories cwd files (localMountDir props)
  /\ NoDup (map dir_id (plan_directories (planOf fs cwd props empty_scope))).
Proof.
  intros E H.
  pose proof (directory_names_distinct props _ H (getDirectories_NoDup _ _ _)) as Hn.
  assert (D : plan_directories (planOf fs cwd props empty_scope)
              = map (theDirectory props) (getDirectories cwd files (localMountDir props))).
  { apply (directories_created fs cwd props empty_scope files eq_refl E).
    apply accepted_all. split.
    - intros c Hc. apply in_map_iff in Hc. destruct Hc as (d & <- & Hd).
      apply in_map_iff in Hd. destruct Hd as (dn & <- & _). reflexivity.
    - now apply nodupb_NoDup. }
  rewrite D. split.
  - rewrite map_map. simpl. apply map_id.
  - rewrite map_map. rewrite Forall_forall in H.
    apply NoDup_map_NoDup_ForallPairs; [|apply getDirectories_NoDup].
    intros a b Ha Hb Eab. simpl in Eab.
    inversion Eab as [E1]. apply append_inj_l in E1. inversion E1.
    apply replace_sep_inj; auto.
Qed.

Lemma X13_witness :
  let P := planOf (app_with two_directories) "/" (mount_props "nginx") empty_scope in
  map dir_name (plan_directories P) = ["certs"; "conf.d"]
  /\ NoDup (map dir_id (plan_directories P)).
Proof.
  intros P.
  apply (X13_directory_ids_are_distinct (app_with two_directories) "/" (mount_props "nginx")
           ["/app/mountfiles/nginx/conf.d/default.conf";
            "/app/mountfiles/nginx/certs/site.pem";
            "/app/mountfiles/nginx/nginx.conf"] eq_refl).
  repeat constructor.
Defined.

(** *** The working directory *)

Lemma lookup_absolute fs cwd1 cwd2 p :
  isAbsolute p = true -> lookup fs cwd1 p = lookup fs cwd2 p.
Proof. intros H. unfold lookup. now rewrite H. Qed.

Lemma resolve_segs_absolute cwd1 cwd2 p :
  isAbsolute p = true -> resolve_segs cwd1 p = resolve_segs cwd2 p.
Proof. intros H. unfold resolve_segs. now rewrite H. Qed.

(** X14: on a well-formed file system a call for an absolute root does the
    same whatever the working directory of the process. *)
Theorem X14_working_directory_is_irrelevant fs cwd1 cwd2 props s :
  fs_ok fs = true -> isAbsolute (localMountDir props) = true ->
  createFileShare fs cwd1 props s = createFileShare fs cwd2 props s.
Proof.
  intros Hok Ha.
  destruct (hasChild (childName (CShare (theShare props))) (children s)) eqn:Hs.
  { now rewrite !(createFileShare_taken _ _ _ _ Hs). }
  pose proof (lookup_absolute fs cwd1 cwd2 _ Ha) as Hl.
  pose proof (resolve_segs_absolute cwd1 cwd2 _ Ha) as Hr.
  destruct (lookup fs cwd1 (localMountDir props)) as [[|es]|e] eqn:El; symmetry in Hl.
  - rewrite (createFileShare_Throw _ _ _ s _ Hs (proj2 (getAllFiles_Throw _ _ _ ENOENT) El)).
    now rewrite (createFileShare_Throw _ _ _ s _ Hs
                   (proj2 (getAllFiles_Throw _ _ _ ENOENT) Hl)).
  - pose proof (getAllFiles_spec _ _ _ _ Hok Ha El) as E1.
    pose proof (getAllFiles_spec _ _ _ _ Hok Ha Hl) as E2.
    destruct (walk_shape _ _ _ _ Hok Ha E1) as (es' & Hl' & _ & Hrels).
    rewrite El in Hl'. inversion Hl'; subst es'. clear Hl'.
    rewrite Forall_forall in Hrels.
    rewrite <- Hr in E2.
    rewrite (createFileShare_Ok _ _ _ s _ Hs E1), (createFileShare_Ok _ _ _ s _ Hs E2).
    set (files := map (fun rel => abs_path (resolve_segs cwd1 (localMountDir props) ++ rel))
                      (files_of (Dir es))).
    assert (Hrel : forall f, In f files ->
                     relative cwd1 (localMountDir props) f
                     = relative cwd2 (localMountDir props) f).
    { intros f Hin. apply in_map_iff in Hin. destruct Hin as (rel & <- & Hin).
      destruct (Hrels _ Hin) as [_ Hv].
      rewrite relative_below by assumption.
      rewrite Hr. now rewrite relative_below by assumption. }
    assert (Hdirs : getDirectories cwd1 files (localMountDir props)
                    = getDirectories cwd2 files (localMountDir props)).
    { rewrite !getDirectories_eq. do 3 f_equal.
      apply map_ext_in. intros f Hin. unfold dir_of. now rewrite Hrel. }
    assert (Hp : planned cwd1 props files = planned cwd2 props files).
    { unfold planned. rewrite Hdirs. do 3 f_equal.
      apply map_ext_in. intros f Hin.
      apply categorizeFiles_In in Hin. destruct Hin as [Hin _].
      unfold nestedFile. now rewrite (Hrel _ Hin). }
    now rewrite Hp.
  - rewrite (createFileShare_Throw _ _ _ s _ Hs (proj1 (getAllFiles_Throw _ _ _ e) El)).
    now rewrite (createFileShare_Throw _ _ _ s _ Hs (proj1 (getAllFiles_Throw _ _ _ e) Hl)).
Qed.

Lemma X14_witness :
  createFileShare nginx_fs "/" (nginx_props "/srv/nginx") empty_scope
  = createFileShare nginx_fs "/srv/nginx/conf.d" (nginx_props "/srv/nginx") empty_scope.
Proof.
  apply X14_working_directory_is_irrelevant; reflexivity.
Defined.

(** *** The constructor *)

Lemma join_two cwd dir a b :
  isAbsolute dir = true -> valid_name a = true -> valid_name b = true ->
  join [dir; a +++ String "/" b] = abs_path (resolve_segs cwd dir ++ [a; b]).
Proof.
  intros Hd Ha Hb.
  pose proof (valid_clean _ Ha) as Hca. pose proof (valid_clean _ Hb) as Hcb.
  unfold join. simpl filter. rewrite (absolute_nonempty _ Hd). simpl negb.
  assert (Ht : (a +++ String "/" b =? "")%string = false).
  { destruct (clean_head _ Hca) as (c & a' & -> & _). reflexivity. }
  rewrite Ht. simpl negb. cbv iota. simpl fold_left.
  assert (X : dir +++ String "/" (a +++ String "/" b)
              = (dir +++ String "/" a) +++ String "/" b)
    by (rewrite append_assoc'; reflexivity).
  rewrite X. clear X.
  unfold normalize.
  assert (Hp : isAbsolute ((dir +++ String "/" a) +++ String "/" b) = true)
    by (destruct dir; [discriminate|exact Hd]).
  rewrite (absolute_nonempty _ Hp), Hp, (trailingSeparator_entry _ _ Hcb). simpl negb.
  unfold normalizeString. rewrite !split_app_sep.
  rewrite (split_sep_free a), (split_sep_free b) by now apply clean_sep_free.
  rewrite <- app_assoc. simpl app.
  rewrite normalize_segs_app_valid by (repeat constructor; assumption).
  assert (R : resolve_segs cwd dir = normalize_segs false (split dir))
    by (unfold resolve_segs; now rewrite Hd).
  rewrite <- R.
  assert (N : (join_sep (resolve_segs cwd dir ++ [a; b]) =? "")%string = false).
  { apply String.eqb_neq, join_sep_nonempty; [now destruct (resolve_segs cwd dir)|].
    apply Forall_app; split; [apply Forall_valid_clean, resolve_segs_valid|].
    repeat constructor; assumption. }
  rewrite N. reflexivity.
Qed.

Lemma mount_dir_resolved cwd dirname a b :
  isAbsolute dirname = true -> valid_name a = true -> valid_name b = true ->
  resolve cwd (join [dirname; a +++ String "/" b]) = join [dirname; a +++ String "/" b].
Proof.
  intros Hd Ha Hb. rewrite (join_two cwd) by assumption.
  unfold resolve. rewrite resolve_segs_abs_path; [reflexivity|].
  apply Forall_app; split; [apply resolve_segs_valid|repeat constructor; assumption].
Qed.

Lemma plan_nested_ok fs cwd props s f p :
  fs_ok fs = true -> resolve cwd (localMountDir props) = localMountDir props ->
  In f (plan_files (planOf fs cwd props s)) -> file_path f = Some p ->
  exists d, In d (plan_directories (planOf fs cwd props s))
            /\ dir_name d = p /\ dir_storageShareId d = file_storageShareId f.
Proof.
  intros Hok Hres Hin Hp.
  destruct (plan_files_inv _ _ _ _ _ Hin)
    as (files & E & Hd & [(src & _ & ->)|(src & Hsrc & ->)]); [discriminate|].
  simpl in Hp.
  destruct (String.eqb_spec (dirname (relative cwd (localMountDir props) src)) "./") as [X|_];
    [now apply dirname_relative_not_dot_slash in X|].
  inversion Hp; subst p.
  apply categorizeFiles_In in Hsrc. destruct Hsrc as [Hf Hn].
  exists (theDirectory props (dirname (relative cwd (localMountDir props) src))).
  split; [|split; reflexivity]. rewrite Hd. apply in_map.
  eapply nested_directory_listed; eassumption.
Qed.

Lemma constructor_run fs cwd dirname props :
  let acct := cp_storageAccountName props in
  let p1 := moduleProps acct dirname "mountfiles/nginx" "nginx" in
  let p2 := moduleProps acct dirname "mountfiles/sandbox" "sandbox" in
  let p3 := moduleProps acct dirname "mountfiles/ssrfproxy" "ssrfproxy" in
  (fst (newFileShareConstruct fs cwd dirname props),
   mirror (snd (newFileShareConstruct fs cwd dirname props)))
  = match createFileShare fs cwd p1 empty_scope with
    | (Throw e, t1) => (Throw e, t1)
    | (Ok _, t1) =>
        match createFileShare fs cwd p2 t1 with
        | (Throw e, t2) => (Throw e, t2)
        | (Ok _, t2) =>
            match createFileShare fs cwd p3 t2 with
            | (Throw e, t3) => (Throw e, t3)
            | (Ok _, t3) => (Ok tt, t3)
            end
        end
    end.
Proof.
  intros acct p1 p2 p3. subst acct p1 p2 p3.
  unfold newFileShareConstruct, bind, ret, empty_scope. cbv zeta.
  cbn [sa_name fst snd mirror].
  destruct (createFileShare fs cwd (moduleProps _ dirname "mountfiles/nginx" "nginx") _)
    as [[sh1|e1] t1]; [|reflexivity].
  destruct (createFileShare fs cwd (moduleProps _ dirname "mountfiles/sandbox" "sandbox") _)
    as [[sh2|e2] t2]; [|reflexivity].
  destruct (createFileShare fs cwd (moduleProps _ dirname "mountfiles/ssrfproxy" "ssrfproxy") _)
    as [[sh3|e3] t3]; reflexivity.
Qed.

(** The names of the children of one call all carry the tag of its share
    name. *)
Lemma created_tag fs cwd props tag :
  (forall files c, In c (added cwd props files) -> call_tag (childName c) = tag) ->
  forall s c, In c (emitted fs cwd props s) -> call_tag (childName c) = tag.
Proof.
  intros H s c Hc. destruct (emitted_run fs cwd props s) as (r & R & _).
  destruct R as [Hf | e Hf E | files a rest stopped Hf E Ep Hn Hs].
  - destruct Hc.
  - destruct Hc as [<-|[]]. apply (H []). now left.
  - apply (H files). unfold added. rewrite Ep. destruct Hc as [<-|Hc]; [now left|right].
    apply in_or_app; now left.
Qed.

Ltac tag_of_added :=
  let Hc := fresh "Hc" in
  intros ? ? Hc; unfold added, planned in Hc; cbv zeta in Hc;
  destruct Hc as [<-|Hc]; [reflexivity|];
  repeat (apply in_app_or in Hc; destruct Hc as [Hc|Hc]);
  apply in_map_iff in Hc; destruct Hc as (? & <- & Hc);
  apply in_map_iff in Hc; destruct Hc as (? & <- & _); reflexivity.

Lemma tag_nginx cwd acct dirname sub files c :
  In c (added cwd (moduleProps acct dirname sub "nginx") files) ->
  call_tag (childName c) = "ng".
Proof. revert files c. tag_of_added. Qed.

Lemma tag_sandbox cwd acct dirname sub files c :
  In c (added cwd (moduleProps acct dirname sub "sandbox") files) ->
  call_tag (childName c) = "sa".
Proof. revert files c. tag_of_added. Qed.

Lemma tag_ssrfproxy cwd acct dirname sub files c :
  In c (added cwd (moduleProps acct dirname sub "ssrfproxy") files) ->
  call_tag (childName c) = "ss".
Proof. revert files c. tag_of_added. Qed.

Lemma other_tags cs cs' t t' :
  t <> t' ->
  (forall c, In c cs -> call_tag (childName c) = t) ->
  (forall c, In c cs' -> call_tag (childName c) = t') ->
  forall c, In c cs -> hasChild (childName c) cs' = false.
Proof.
  intros Hne H H' c Hc. apply hasChild_false. intros c' Hc' E.
  apply Hne. now rewrite <- (H c Hc), <- (H' c' Hc'), E.
Qed.

Lemma alone_children fs cwd props :
  children (snd (createFileShare fs cwd props empty_scope)) = emitted fs cwd props empty_scope.
Proof. now rewrite children_run. Qed.

Lemma alone_shares fs cwd props :
  shares (snd (createFileShare fs cwd props empty_scope))
  = [(shareName props, theShare props)].
Proof.
  destruct (createFileShare_run fs cwd props empty_scope) as (r & cs & R & _ & _ & E & _).
  apply E. destruct R; discriminate.
Qed.

(** The three calls of the constructor, each read as a call in the empty
    scope: their children have different names. *)
Lemma constructor_alone fs cwd dirname props :
  let acct := cp_storageAccountName props in
  let r1 := createFileShare fs cwd (moduleProps acct dirname "mountfiles/nginx" "nginx")
              empty_scope in
  let r2 := createFileShare fs cwd (moduleProps acct dirname "mountfiles/sandbox" "sandbox")
              empty_scope in
  let r3 := createFileShare fs cwd (moduleProps acct dirname "mountfiles/ssrfproxy" "ssrfproxy")
              empty_scope in
  let c := newFileShareConstruct fs cwd dirname props in
  match fst r1 with
  | Throw e => fst c = Throw e /\ mirror (snd c) = snd r1
  | Ok _ =>
      match fst r2 with
      | Throw e =>
          fst c = Throw e
          /\ children (mirror (snd c)) = children (snd r1) ++ children (snd r2)
          /\ map fst (shares (mirror (snd c))) = ["nginx"; "sandbox"]
      | Ok _ =>
          fst c = match fst r3 with Throw e => Throw e | Ok _ => Ok tt end
          /\ children (mirror (snd c))
             = children (snd r1) ++ children (snd r2) ++ children (snd r3)
          /\ map fst (shares (mirror (snd c))) = ["nginx"; "sandbox"; "ssrfproxy"]
      end
  end.
Proof.
  intros acct r1 r2 r3 c. subst c.
  pose proof (constructor_run fs cwd dirname props) as R. cbv zeta in R. fold acct in R.
  set (p1 := moduleProps acct dirname "mountfiles/nginx" "nginx") in *.
  set (p2 := moduleProps acct dirname "mountfiles/sandbox" "sandbox") in *.
  set (p3 := moduleProps acct dirname "mountfiles/ssrfproxy" "ssrfproxy") in *.
  fold r1 in R.
  assert (T1 : forall c, In c (children (snd r1)) -> call_tag (childName c) = "ng").
  { unfold r1. rewrite alone_children. apply created_tag. intros files c. apply tag_nginx. }
  assert (T2 : forall c, In c (children (snd r2)) -> call_tag (childName c) = "sa").
  { unfold r2. rewrite alone_children. apply created_tag. intros files c. apply tag_sandbox. }
  assert (T3 : forall c, In c (children (snd r3)) -> call_tag (childName c) = "ss").
  { unfold r3. rewrite alone_children. apply created_tag. intros files c. apply tag_ssrfproxy. }
  pose proof (alone_shares fs cwd p1) as S1. fold r1 in S1.
  destruct r1 as [[sh1|e1] t1] eqn:E1; cbn [fst snd] in *.
  2:{ apply pair_equal_spec in R. destruct R as [Rf Rm]. now split. }
  assert (F2 : createFileShare fs cwd p2 t1
               = (fst r2, {| children := children t1 ++ children (snd r2);
                             shares := assign (shareName p2) (theShare p2) (shares t1) |})).
  { apply createFileShare_frame. eapply other_tags; [|exact T1|exact T2]. discriminate. }
  rewrite F2 in R. rewrite S1 in R.
  destruct (fst r2) as [sh2|e2] eqn:E2.
  2:{ apply pair_equal_spec in R. destruct R as [Rf Rm]. rewrite Rf, Rm. now repeat split. }
  assert (F3 : forall sh,
             createFileShare fs cwd p3
               {| children := children t1 ++ children (snd r2); shares := sh |}
             = (fst r3, {| children := (children t1 ++ children (snd r2)) ++ children (snd r3);
                           shares := assign (shareName p3) (theShare p3) sh |})).
  { intros sh. apply createFileShare_frame. cbn [children]. intros c Hc.
    apply in_app_or in Hc. destruct Hc as [Hc|Hc].
    - revert c Hc. eapply other_tags; [|exact T1|exact T3]. discriminate.
    - revert c Hc. eapply other_tags; [|exact T2|exact T3]. discriminate. }
  rewrite F3 in R.
  destruct (fst r3) as [sh3|e3];
    apply pair_equal_spec in R; destruct R as [Rf Rm]; rewrite Rf, Rm;
    cbn [children shares]; rewrite <- app_assoc; now repeat split.
Qed.

(** X15: when each of the three calls returns in the empty scope, the
    constructor returns, its scope holds what the three calls create there,
    one after the other, and the table of shares has the three names. *)
Theorem X15_constructor_builds_three_shares fs cwd dirname props sh1 sh2 sh3 :
  let c := newFileShareConstruct fs cwd dirname props in
  let acct := cp_storageAccountName props in
  let alone sub name :=
    createFileShare fs cwd (moduleProps acct dirname sub name) empty_scope in
  fst (alone "mountfiles/nginx" "nginx") = Ok sh1 ->
  fst (alone "mountfiles/sandbox" "sandbox") = Ok sh2 ->
  fst (alone "mountfiles/ssrfproxy" "ssrfproxy") = Ok sh3 ->
  fst c = Ok tt
  /\ children (mirror (snd c))
     = children (snd (alone "mountfiles/nginx" "nginx"))
       ++ children (snd (alone "mountfiles/sandbox" "sandbox"))
       ++ children (snd (alone "mountfiles/ssrfproxy" "ssrfproxy"))
  /\ map fst (shares (mirror (snd c))) = ["nginx"; "sandbox"; "ssrfproxy"].
Proof.
  intros c acct alone H1 H2 H3. subst c alone.
  pose proof (constructor_alone fs cwd dirname props) as R. cbv zeta in R. fold acct in R.
  cbv beta in H1, H2, H3 |- *. now rewrite H1, H2, H3 in R.
Qed.

Lemma X15_witness :
  let c := newFileShareConstruct app_fs "/" "/app" app_props in
  fst c = Ok tt /\ map fst (shares (mirror (snd c))) = ["nginx"; "sandbox"; "ssrfproxy"].
Proof.
  intros c.
  destruct (X15_constructor_builds_three_shares app_fs "/" "/app" app_props _ _ _
              eq_refl eq_refl eq_refl) as (Hr & _ & Hs).
  split; assumption.
Defined.

(** X16: the constructor throws what the first of its calls that throws
    does, be it an error of the walk or a construct name met twice, and
    makes no later call: its scope holds what the calls up to that one
    create in the empty scope, and the table of shares the names up to
    that one. *)
Theorem X16_constructor_stops_at_first_error fs cwd dirname props e :
  let c := newFileShareConstruct fs cwd dirname props in
  let acct := cp_storageAccountName props in
  let alone sub name :=
    createFileShare fs cwd (moduleProps acct dirname sub name) empty_scope in
  (fst (alone "mountfiles/nginx" "nginx") = Throw e ->
   fst c = Throw e
   /\ children (mirror (snd c)) = children (snd (alone "mountfiles/nginx" "nginx"))
   /\ map fst (shares (mirror (snd c))) = ["nginx"])
  /\ (forall sh1,
        fst (alone "mountfiles/nginx" "nginx") = Ok sh1 ->
        fst (alone "mountfiles/sandbox" "sandbox") = Throw e ->
        fst c = Throw e
        /\ children (mirror (snd c))
           = children (snd (alone "mountfiles/nginx" "nginx"))
             ++ children (snd (alone "mountfiles/sandbox" "sandbox"))
        /\ map fst (shares (mirror (snd c))) = ["nginx"; "sandbox"])
  /\ (forall sh1 sh2,
        fst (alone "mountfiles/nginx" "nginx") = Ok sh1 ->
        fst (alone "mountfiles/sandbox" "sandbox") = Ok sh2 ->
        fst (alone "mountfiles/ssrfproxy" "ssrfproxy") = Throw e ->
        fst c = Throw e
        /\ children (mirror (snd c))
           = children (snd (alone "mountfiles/nginx" "nginx"))
             ++ children (snd (alone "mountfiles/sandbox" "sandbox"))
             ++ children (snd (alone "mountfiles/ssrfproxy" "ssrfproxy"))
        /\ map fst (shares (mirror (snd c))) = ["nginx"; "sandbox"; "ssrfproxy"]).
Proof.
  intros c acct alone. subst c alone.
  pose proof (constructor_alone fs cwd dirname props) as R. cbv zeta in R. fold acct in R.
  cbv beta. split; [|split].
  - intros H1. rewrite H1 in R. destruct R as [Rf Rm]. rewrite Rf, Rm.
    split; [reflexivity|]. split; [reflexivity|]. now rewrite alone_shares.
  - intros sh1 H1 H2. now rewrite H1, H2 in R.
  - intros sh1 sh2 H1 H2 H3. now rewrite H1, H2, H3 in R.
Qed.

Lemma X16_witness :
  let fs := Dir [("app", Dir [("mountfiles", Dir [("nginx", Dir [("nginx.conf", File)])])])] in
  let c := newFileShareConstruct fs "/" "/app" app_props in
  let c' := newFileShareConstruct (app_with twin_directories) "/" "/app" app_props in
  (fst c = Throw ENOENT /\ map fst (shares (mirror (snd c))) = ["nginx"; "sandbox"])
  /\ (fst c' = Throw (DuplicateConstruct "dir_nginx_a_b")
      /\ map fst (shares (mirror (snd c'))) = ["nginx"]).
Proof.
  intros fs c c'. split.
  - destruct (proj1 (proj2 (X16_constructor_stops_at_first_error fs "/" "/app" app_props
                              ENOENT)) _ eq_refl eq_refl) as (Hr & _ & Hs).
    split; assumption.
  - destruct (proj1 (X16_constructor_stops_at_first_error (app_with twin_directories) "/"
                       "/app" app_props (DuplicateConstruct "dir_nginx_a_b")) eq_refl)
      as (Hr & _ & Hs).
    split; assumption.
Defined.

Lemma mount_props_resolved cwd acct dirname a b name :
  isAbsolute dirname = true -> valid_name a = true -> valid_name b = true ->
  resolve cwd (localMountDir (moduleProps acct dirname (a +++ String "/" b) name))
  = localMountDir (moduleProps acct dirname (a +++ String "/" b) name).
Proof. intros; simpl; now apply mount_dir_resolved. Qed.

Lemma run_nested_ok fs cwd props s f p :
  fs_ok fs = true -> resolve cwd (localMountDir props) = localMountDir props ->
  (forall f0 p0, In f0 (filesOf (children s)) -> file_path f0 = Some p0 ->
     exists d, In d (directoriesOf (children s))
               /\ dir_name d = p0 /\ dir_storageShareId d = file_storageShareId f0) ->
  In f (filesOf (children (snd (createFileShare fs cwd props s)))) -> file_path f = Some p ->
  exists d, In d (directoriesOf (children (snd (createFileShare fs cwd props s))))
            /\ dir_name d = p /\ dir_storageShareId d = file_storageShareId f.
Proof.
  intros Hok Hres Hs Hin Hp. rewrite children_run in Hin |- *.
  rewrite filesOf_app in Hin. rewrite directoriesOf_app.
  apply in_app_or in Hin. destruct Hin as [Hin|Hin].
  - destruct (Hs _ _ Hin Hp) as (d & Hd & H1 & H2). exists d. split; [|now split].
    apply in_or_app; now left.
  - destruct (plan_nested_ok fs cwd props s f p Hok Hres Hin Hp) as (d & Hd & H1 & H2).
    exists d. split; [|now split]. apply in_or_app; now right.
Qed.

(** X17: for an absolute [__dirname] and a well-formed file system, in the
    scope the constructor leaves - whether it returned or threw - every file
    that carries a remote directory has that directory among the created
    ones, in the same share. *)
Theorem X17_constructor_directories_cover_files fs cwd dirname props f p :
  fs_ok fs = true -> isAbsolute dirname = true ->
  let c := newFileShareConstruct fs cwd dirname props in
  In f (filesOf (children (mirror (snd c)))) -> file_path f = Some p ->
  exists d, In d (directoriesOf (children (mirror (snd c))))
            /\ dir_name d = p /\ dir_storageShareId d = file_storageShareId f.
Proof.
  intros Hok Ha c. subst c.
  pose proof (constructor_run fs cwd dirname props) as R. cbv zeta in R.
  set (acct := cp_storageAccountName props) in *.
  pose proof (run_nested_ok fs cwd (moduleProps acct dirname "mountfiles/nginx" "nginx")
                empty_scope) as N1.
  assert (S0 : forall f0 p0, In f0 (filesOf (children empty_scope)) -> file_path f0 = Some p0 ->
                 exists d, In d (directoriesOf (children empty_scope))
                           /\ dir_name d = p0 /\ dir_storageShareId d = file_storageShareId f0)
    by (intros f0 p0 []).
  assert (S1 := fun f p => N1 f p Hok
                  (mount_props_resolved cwd acct dirname "mountfiles" "nginx" "nginx"
                     Ha eq_refl eq_refl) S0).
  destruct (createFileShare fs cwd (moduleProps acct dirname "mountfiles/nginx" "nginx")
              empty_scope) as [[sh1|e1] t1]; simpl snd in S1.
  2:{ apply pair_equal_spec in R. destruct R as [_ Rm]. rewrite Rm. apply S1. }
  assert (S2 := fun f p => run_nested_ok fs cwd
                  (moduleProps acct dirname "mountfiles/sandbox" "sandbox") t1 f p Hok
                  (mount_props_resolved cwd acct dirname "mountfiles" "sandbox" "sandbox"
                     Ha eq_refl eq_refl) S1).
  destruct (createFileShare fs cwd (moduleProps acct dirname "mountfiles/sandbox" "sandbox")
              t1) as [[sh2|e2] t2]; simpl snd in S2.
  2:{ apply pair_equal_spec in R. destruct R as [_ Rm]. rewrite Rm. apply S2. }
  assert (S3 := fun f p => run_nested_ok fs cwd
                  (moduleProps acct dirname "mountfiles/ssrfproxy" "ssrfproxy") t2 f p Hok
                  (mount_props_resolved cwd acct dirname "mountfiles" "ssrfproxy" "ssrfproxy"
                     Ha eq_refl eq_refl) S2).
  destruct (createFileShare fs cwd (moduleProps acct dirname "mountfiles/ssrfproxy" "ssrfproxy")
              t2) as [[sh3|e3] t3]; simpl snd in S3;
    apply pair_equal_spec in R; destruct R as [_ Rm]; rewrite Rm; apply S3.
Qed.

Lemma X17_witness :
  let c := newFileShareConstruct app_fs "/" "/app" app_props in
  exists f d, In f (filesOf (children (mirror (snd c)))) /\ file_path f = Some "conf.d"
              /\ In d (directoriesOf (children (mirror (snd c))))
              /\ dir_name d = "conf.d" /\ dir_storageShareId d = file_storageShareId f.
Proof.
  intros c.
  assert (H : In (nth 1 (filesOf (children (mirror (snd c)))) (rootFile (nginx_props "") [] ""))
                 (filesOf (children (mirror (snd c)))))
    by (vm_compute; tauto).
  destruct (X17_constructor_directories_cover_files app_fs "/" "/app" app_props _ "conf.d"
              eq_refl eq_refl H eq_refl) as (d & Hd & H1 & H2).
  eexists; exists d. split; [exact H|]. split; [reflexivity|]. auto.
Defined.

(** *** A call that returns, and the names it leaves *)

(** X19: when the call returns, on a well-formed file system and for an
    absolute root whose tree holds N regular files with D distinct parent
    directories other than the root, the plan holds exactly D directories
    and N files, and the walked files split into the root-level and the
    nested ones without overlap or omission. *)
Theorem X19_counts_of_a_returned_plan fs cwd props s es share :
  fs_ok fs = true ->
  isAbsolute (localMountDir props) = true ->
  lookup fs cwd (localMountDir props) = Ok (Dir es) ->
  fst (createFileShare fs cwd props s) = Ok share ->
  let N := List.length (files_of (Dir es)) in
  let D := List.length (parent_dirs (Dir es)) in
  exists files,
    getAllFiles fs cwd (localMountDir props) = Ok files
    /\ List.length files = N
    /\ List.length (plan_directories (planOf fs cwd props s)) = D
    /\ List.length (plan_files (planOf fs cwd props s)) = N
    /\ let c := categorizeFiles files (localMountDir props) in
       List.length (rootFiles c) + List.length (subdirFiles c) = N
       /\ (forall f, In f files <-> In f (rootFiles c) \/ In f (subdirFiles c))
       /\ (forall f, ~ (In f (rootFiles c) /\ In f (subdirFiles c))).
Proof.
  intros Hok Ha Hl Hret N D.
  pose proof (getAllFiles_spec _ _ _ _ Hok Ha Hl) as E.
  destruct (walk_shape _ _ _ _ Hok Ha E) as (es' & Hl' & _ & Hrels).
  rewrite Hl in Hl'. inversion Hl'; subst es'. clear Hl'.
  eexists; split; [exact E|].
  destruct (plan_Ok fs cwd props s _ Hret) as (files' & E' & Hd & Hp).
  rewrite E in E'. inversion E'; subst files'. clear E'.
  destruct (categorizeFiles_eq
              (map (fun rel => abs_path (resolve_segs cwd (localMountDir props) ++ rel))
                   (files_of (Dir es))) (localMountDir props)) as [Er Es].
  assert (Hsum : forall c : categorized,
             rootFiles c = filter (fun f => (dirname f =? localMountDir props)%string)
                             (map (fun rel => abs_path (resolve_segs cwd (localMountDir props) ++ rel))
                                  (files_of (Dir es))) ->
             subdirFiles c = filter (fun f => negb (dirname f =? localMountDir props)%string)
                               (map (fun rel => abs_path (resolve_segs cwd (localMountDir props) ++ rel))
                                    (files_of (Dir es))) ->
             List.length (rootFiles c) + List.length (subdirFiles c) = N).
  { intros c -> ->. rewrite filter_partition_length. apply length_map. }
  split; [apply length_map|].
  split; [|split; [|split; [|split]]].
  - rewrite Hd, length_map, getDirectories_eq.
    rewrite (Permutation_length (sort_perm _)).
    rewrite (kept_dirs_below _ _ _ Ha Hrels).
    rewrite dedup_map_length; [reflexivity|].
    apply Forall_forall. intros d Hin. apply filter_In in Hin. destruct Hin as [Hin _].
    apply in_map_iff in Hin. destruct Hin as (rel & <- & Hin).
    rewrite Forall_forall in Hrels. apply removelast_valid, (Hrels _ Hin).
  - rewrite Hp, length_app, !length_map. now apply Hsum.
  - now apply Hsum.
  - intros f. rewrite Er, Es, !filter_In.
    destruct (dirname f =? localMountDir props)%string; simpl; intuition congruence.
  - intros f. rewrite Er, Es, !filter_In.
    destruct (dirname f =? localMountDir props)%string; simpl; intuition congruence.
Qed.

Lemma X19_witness :
  let P := planOf nginx_fs "/" (nginx_props "/srv/nginx") empty_scope in
  List.length (plan_directories P) = 1 /\ List.length (plan_files P) = 2.
Proof.
  intros P.
  destruct (X19_counts_of_a_returned_plan nginx_fs "/" (nginx_props "/srv/nginx") empty_scope
              [("nginx.conf", File);
               ("conf.d", Dir [("default.conf", File); ("empty", Dir [])]);
               ("empty2", Dir [])] (theShare (nginx_props "/srv/nginx"))
              eq_refl eq_refl eq_refl eq_refl) as (files & _ & _ & HD & HN & _).
  split; [exact HD|exact HN].
Defined.

(** X20: a call never gives the scope a second child of a name: in a scope
    whose children have pairwise distinct names, they still have after the
    call, returned or thrown; and when the call throws on a name, the
    scope holds a child of that name.  The scope the constructor leaves
    has children of pairwise distinct names. *)
Theorem X20_names_stay_distinct fs cwd props s :
  (distinct_names (children s) = true ->
   distinct_names (children (snd (createFileShare fs cwd props s))) = true)
  /\ (forall name,
        fst (createFileShare fs cwd props s) = Throw (DuplicateConstruct name) ->
        hasChild name (children (snd (createFileShare fs cwd props s))) = true)
  /\ (forall dirname cprops,
        distinct_names
          (children (mirror (snd (newFileShareConstruct fs cwd dirname cprops)))) = true).
Proof.
  assert (D : forall props s,
             distinct_names (children s) = true ->
             distinct_names (children (snd (createFileShare fs cwd props s))) = true).
  { clear props s. intros props s H.
    destruct (hasChild (childName (CShare (theShare props))) (children s)) eqn:Hs.
    { now rewrite (createFileShare_taken _ _ _ _ Hs). }
    pose proof (distinct_snoc _ _ H Hs) as H'.
    destruct (getAllFiles fs cwd (localMountDir props)) as [files|e] eqn:E.
    - rewrite (createFileShare_Ok _ _ _ _ _ Hs E). cbn [snd children].
      change (CShare (theShare props) :: ?l) with ([CShare (theShare props)] ++ l).
      rewrite app_assoc. now apply accepted_distinct.
    - now rewrite (createFileShare_Throw _ _ _ _ _ Hs E). }
  split; [apply D|]. split.
  - intros name H.
    destruct (hasChild (childName (CShare (theShare props))) (children s)) eqn:Hs.
    { rewrite (createFileShare_taken _ _ _ _ Hs) in H |- *. simpl in *. inversion H. now subst. }
    destruct (getAllFiles fs cwd (localMountDir props)) as [files|e] eqn:E.
    + rewrite (createFileShare_Ok _ _ _ _ _ Hs E) in H |- *. cbn [fst snd children] in *.
      destruct (accepted_spec (children s ++ [CShare (theShare props)])
                  (planned cwd props files)) as (rest & _ & X).
      destruct (snd (accepted (children s ++ [CShare (theShare props)])
                       (planned cwd props files))) as [n|]; [|discriminate].
      simpl in H. inversion H; subst n. destruct X as (_ & _ & _ & _ & X).
      now rewrite <- app_assoc in X.
    + rewrite (createFileShare_Throw _ _ _ _ _ Hs E) in H. simpl in H. inversion H; subst e.
      unfold getAllFiles in E. apply getAllFiles_rec_error in E.
      destruct E as [E|[E|E]]; discriminate.
  - intros dirname cprops.
    pose proof (constructor_run fs cwd dirname cprops) as R. cbv zeta in R.
    set (acct := cp_storageAccountName cprops) in *.
    pose proof (D (moduleProps acct dirname "mountfiles/nginx" "nginx") empty_scope eq_refl)
      as D1.
    destruct (createFileShare fs cwd (moduleProps acct dirname "mountfiles/nginx" "nginx")
                empty_scope) as [[sh1|e1] t1]; cbn [snd] in D1.
    2:{ apply pair_equal_spec in R. destruct R as [_ ->]. exact D1. }
    pose proof (D (moduleProps acct dirname "mountfiles/sandbox" "sandbox") t1 D1) as D2.
    destruct (createFileShare fs cwd (moduleProps acct dirname "mountfiles/sandbox" "sandbox")
                t1) as [[sh2|e2] t2]; cbn [snd] in D2.
    2:{ apply pair_equal_spec in R. destruct R as [_ ->]. exact D2. }
    pose proof (D (moduleProps acct dirname "mountfiles/ssrfproxy" "ssrfproxy") t2 D2) as D3.
    destruct (createFileShare fs cwd (moduleProps acct dirname "mountfiles/ssrfproxy" "ssrfproxy")
                t2) as [[sh3|e3] t3]; cbn [snd] in D3;
      apply pair_equal_spec in R; destruct R as [_ ->]; exact D3.
Qed.

Lemma X20_witness :
  let run := createFileShare (app_with twin_files) "/" (mount_props "nginx") empty_scope in
  fst run = Throw (DuplicateConstruct "file_nginx_root_x")
  /\ hasChild "file_nginx_root_x" (children (snd run)) = true
  /\ distinct_names (children (snd run)) = true.
Proof.
  intros run. split; [reflexivity|]. split.
  - apply (proj1 (proj2 (X20_names_stay_distinct (app_with twin_files) "/"
                           (mount_props "nginx") empty_scope))).
    reflexivity.
  - apply (proj1 (X20_names_stay_distinct (app_with twin_files) "/"
                    (mount_props "nginx") empty_scope)).
    reflexivity.
Defined.

(** *** The walk, entry by entry *)

Lemma Forall2_map_r {A B} (P : A -> B -> Prop) (f : A -> B) l :
  Forall (fun a => P a (f a)) l -> Forall2 P l (map f l).
Proof. induction 1; simpl; constructor; assumption. Qed.

(** X18: on a well-formed file system the walk of an absolute directory is
    the concatenation, in listing order, of what its entries give: the one
    path [path.join(dir, name)] for a regular file, the walk of that path
    for a directory. *)
Theorem X18_walk_is_concatenation fs cwd dir es :
  fs_ok fs = true -> isAbsolute dir = true ->
  lookup fs cwd dir = Ok (Dir es) ->
  exists parts,
    Forall2 (fun e part =>
               match snd e with
               | File => part = [join [dir; fst e]]
               | Dir _ => getAllFiles fs cwd (join [dir; fst e]) = Ok part
               end) es parts
    /\ getAllFiles fs cwd dir = Ok (List.concat parts).
Proof.
  intros Hok Ha Hl.
  pose proof (getAllFiles_spec _ _ _ _ Hok Ha Hl) as E.
  pose proof Hok as Hok'. apply andb_true_iff in Hok'; destruct Hok' as [Hd Hw].
  pose proof (lookup_node_at _ _ _ _ Ha Hl) as Hat.
  destruct (node_at_sub _ _ _ Hat) as [_ Hw']. specialize (Hw' Hw).
  pose proof (well_formed_entries _ Hw') as He.
  pose proof (resolve_segs_valid cwd dir) as Hrs.
  set (rs := resolve_segs cwd dir) in *.
  exists (map (fun e => map (fun rel => abs_path (rs ++ rel))
                            (match snd e with
                             | File => [[fst e]]
                             | Dir _ => map (cons (fst e)) (files_of (snd e))
                             end)) es).
  split.
  - apply Forall2_map_r. eapply Forall_impl; [|exact He].
    intros [name child] (Hv & Hwc & Hf & _). simpl in Hv, Hwc, Hf. simpl fst; simpl snd.
    rewrite (join_entry cwd _ _ Ha Hv). fold rs.
    destruct child as [|es']; [reflexivity|].
    assert (Hv' : Forall (fun s => valid_name s = true) (rs ++ [name]))
      by (apply Forall_app; split; [assumption|constructor; [assumption|constructor]]).
    assert (Hat' : node_at fs (rs ++ [name]) = Some (Dir es'))
      by (rewrite node_at_app, Hat; simpl; now rewrite Hf).
    pose proof (lookup_abs_path fs cwd _ _ Hd Hv' Hat') as Hl'.
    rewrite (getAllFiles_spec _ _ _ _ Hok (abs_path_absolute _) Hl').
    rewrite (resolve_segs_abs_path _ _ Hv'). f_equal.
    rewrite map_map. apply map_ext. intros rel. now rewrite <- app_assoc.
  - rewrite E. f_equal. simpl files_of. rewrite map_flat_map.
    now rewrite flat_map_concat_map.
Qed.

Lemma X18_witness :
  getAllFiles nginx_fs "/" "/srv/nginx/conf.d" = Ok ["/srv/nginx/conf.d/default.conf"]
  /\ exists parts,
       getAllFiles nginx_fs "/" "/srv/nginx" = Ok (List.concat parts)
       /\ List.length parts = 3.
Proof.
  split; [reflexivity|].
  destruct (X18_walk_is_concatenation nginx_fs "/" "/srv/nginx"
              [("nginx.conf", File);
               ("conf.d", Dir [("default.conf", File); ("empty", Dir [])]);
               ("empty2", Dir [])] eq_refl eq_refl eq_refl) as (parts & HF & E).
  exists parts. split; [exact E|].
  apply Forall2_length in HF. now rewrite <- HF.
Defined.

End More.
